(** * PowerPath 100: the adaptive question engine of [src/game/powerpath.ts]

    A shallow embedding of the class [PowerPath100]: its score model, its
    difficulty policy, its selection waterfall and its public operations,
    followed by the properties the specification states about them.

    Conventions of the embedding.
    - A JavaScript [number] that the engine only ever treats as an integer
      (the score, timestamps) is a [Z]; counters and array indices that start
      at 0 and are only incremented are [nat].
    - The instance fields of the class are the record [PowerPath100]; a method
      takes the instance and returns the instance after the call.
    - [Date.now()] and [Math.random()] read an explicit oracle: the sequence of
      values the successive calls will yield.
    - A call either returns a value or throws; [Completion] records which. *)

From Stdlib Require Import ZArith QArith Qround Ascii String.
From stdpp Require Import base gmap sets list strings pretty.
From stdpp Require Import sorting.
From Stdlib Require Import Lqa.

Local Open Scope Z_scope.

(** ** Oracles and completions *)

(** The values of the successive calls of [Date.now()]. *)
Definition Clock := nat -> Z.

Definition Date_now (c : Clock) : Z * Clock :=
  (c 0%nat, fun n => c (S n)).

(** The values of the successive calls of [Math.random()].  Doubles are
    rationals, so a draw is a [Q]. *)
Definition Rand := nat -> Q.

Definition Math_random (g : Rand) : Q * Rand :=
  (g 0%nat, fun n => g (S n)).

(** The contract of [Math.random()]: every draw lies in [0, 1). *)
Definition unit_draws (g : Rand) : Prop :=
  forall n, (0 <= g n)%Q /\ (g n < 1)%Q.

(** What a thrown JavaScript value is does not matter here; a message
    stands for it. *)
Definition Exn := string.

Inductive Completion (A : Type) : Type :=
| Returned (v : A)
| Threw (e : Exn).

Arguments Returned {A} v.
Arguments Threw {A} e.

(** ** Types *)

Inductive Difficulty : Type := easy | medium | hard.

Global Instance Difficulty_eq_dec : EqDecision Difficulty.
Proof. solve_decision. Defined.

Module Choice.
Record t : Type := mk {
  id : string;
  identifier : option string;
  text : string;
  feedback : string;
  correct : bool
}.
End Choice.

Module Metadata.
Record t : Type := mk {
  dok : option Z;
  difficulty : option string;
  ccss : option string
}.
End Metadata.

Record PowerPathQuestion : Type := mkQuestion {
  id : string;
  prompt : string;
  choices : list Choice.t;
  difficulty : Difficulty;
  humanApproved : option bool;
  metadata : option Metadata.t
}.

Module PowerPathState.
Inductive Phase : Type := guiding | quiz.
Record t : Type := mk {
  score : Z;
  questionsAnswered : nat;
  correctAnswers : nat;
  accuracy : Z;
  isComplete : bool;
  currentPhase : Phase;
  guidingQuestionsRemaining : Z;
  elapsedTimeMs : Z
}.
End PowerPathState.

Record QuestionHistory : Type := mkHistory {
  questionId : string;
  wasCorrect : bool;
  attemptNumber : nat;
  timestamp : Z
}.

Module PowerPathStats.
Record t : Type := mk {
  score : Z;
  questionsAnswered : nat;
  accuracy : Z;
  timeElapsed : string;
  isComplete : bool
}.
End PowerPathStats.

(** The callback [onStatsUpdate]: it is handed a snapshot and either returns
    or throws.  Whatever else it does outside the engine is not modelled. *)
Definition Observer := PowerPathStats.t -> Completion unit.

(** The private fields of the class. *)
Record PowerPath100 : Type := mkEngine {
  score : Z;
  questionsAnswered : nat;
  correctAnswers : nat;
  currentAttempt : nat;
  startTime : Z;
  allQuestionHistory : list QuestionHistory;
  currentAttemptHistory : list QuestionHistory;
  guidingQuestions : list PowerPathQuestion;
  quizQuestions : list PowerPathQuestion;
  currentGuidingIndex : nat;
  onStatsUpdate : option Observer
}.

(** Field assignments [this.f = v]. *)
Definition set_score (v : Z) (this : PowerPath100) : PowerPath100 :=
  mkEngine v (questionsAnswered this) (correctAnswers this)
    (currentAttempt this) (startTime this) (allQuestionHistory this)
    (currentAttemptHistory this) (guidingQuestions this) (quizQuestions this)
    (currentGuidingIndex this) (onStatsUpdate this).

Definition set_questionsAnswered (v : nat) (this : PowerPath100) : PowerPath100 :=
  mkEngine (score this) v (correctAnswers this)
    (currentAttempt this) (startTime this) (allQuestionHistory this)
    (currentAttemptHistory this) (guidingQuestions this) (quizQuestions this)
    (currentGuidingIndex this) (onStatsUpdate this).

Definition set_correctAnswers (v : nat) (this : PowerPath100) : PowerPath100 :=
  mkEngine (score this) (questionsAnswered this) v
    (currentAttempt this) (startTime this) (allQuestionHistory this)
    (currentAttemptHistory this) (guidingQuestions this) (quizQuestions this)
    (currentGuidingIndex this) (onStatsUpdate this).

Definition set_currentAttempt (v : nat) (this : PowerPath100) : PowerPath100 :=
  mkEngine (score this) (questionsAnswered this) (correctAnswers this)
    v (startTime this) (allQuestionHistory this)
    (currentAttemptHistory this) (guidingQuestions this) (quizQuestions this)
    (currentGuidingIndex this) (onStatsUpdate this).

Definition set_startTime (v : Z) (this : PowerPath100) : PowerPath100 :=
  mkEngine (score this) (questionsAnswered this) (correctAnswers this)
    (currentAttempt this) v (allQuestionHistory this)
    (currentAttemptHistory this) (guidingQuestions this) (quizQuestions this)
    (currentGuidingIndex this) (onStatsUpdate this).

Definition set_allQuestionHistory (v : list QuestionHistory)
    (this : PowerPath100) : PowerPath100 :=
  mkEngine (score this) (questionsAnswered this) (correctAnswers this)
    (currentAttempt this) (startTime this) v
    (currentAttemptHistory this) (guidingQuestions this) (quizQuestions this)
    (currentGuidingIndex this) (onStatsUpdate this).

Definition set_currentAttemptHistory (v : list QuestionHistory)
    (this : PowerPath100) : PowerPath100 :=
  mkEngine (score this) (questionsAnswered this) (correctAnswers this)
    (currentAttempt this) (startTime this) (allQuestionHistory this)
    v (guidingQuestions this) (quizQuestions this)
    (currentGuidingIndex this) (onStatsUpdate this).

Definition set_currentGuidingIndex (v : nat) (this : PowerPath100) : PowerPath100 :=
  mkEngine (score this) (questionsAnswered this) (correctAnswers this)
    (currentAttempt this) (startTime this) (allQuestionHistory this)
    (currentAttemptHistory this) (guidingQuestions this) (quizQuestions this)
    v (onStatsUpdate this).

Definition set_onStatsUpdate (v : option Observer) (this : PowerPath100) : PowerPath100 :=
  mkEngine (score this) (questionsAnswered this) (correctAnswers this)
    (currentAttempt this) (startTime this) (allQuestionHistory this)
    (currentAttemptHistory this) (guidingQuestions this) (quizQuestions this)
    (currentGuidingIndex this) v.

(** ** Normalising the quiz pool *)

(** [String.prototype.toLowerCase] on the ASCII letters.  The descriptors
    are compared with ASCII words only, and no character outside ASCII
    lower-cases to one of their letters. *)
Definition lower_ascii (a : ascii) : ascii :=
  let n := nat_of_ascii a in
  if ((65 <=? n)%nat && (n <=? 90)%nat)%bool then ascii_of_nat (n + 32) else a.

Fixpoint toLowerCase (s : string) : string :=
  match s with
  | EmptyString => EmptyString
  | String a rest => String (lower_ascii a) (toLowerCase rest)
  end.

Definition parseDifficulty (diff : option string) : Difficulty :=
  match diff with
  | None => medium
  | Some EmptyString => medium
  | Some d =>
      let lower := toLowerCase d in
      if bool_decide (lower = "easy" \/ lower = "low") then easy
      else if bool_decide (lower = "hard" \/ lower = "high" \/ lower = "difficult")
      then hard
      else medium
  end.

(** The string a [Difficulty] is at run time. *)
Definition Difficulty_string (d : Difficulty) : string :=
  match d with
  | easy => "easy"
  | medium => "medium"
  | hard => "hard"
  end.

(** [q.metadata?.difficulty || q.difficulty]: the metadata string when it is
    present and not empty, else the tier the question came with. *)
Definition difficulty_descriptor (q : PowerPathQuestion) : option string :=
  match metadata q with
  | Some m =>
      match Metadata.difficulty m with
      | Some EmptyString | None => Some (Difficulty_string (difficulty q))
      | Some d => Some d
      end
  | None => Some (Difficulty_string (difficulty q))
  end.

Definition normalizeQuizQuestions (questions : list PowerPathQuestion)
  : list PowerPathQuestion :=
  map (fun q => mkQuestion (id q) (prompt q) (choices q)
                  (parseDifficulty (difficulty_descriptor q))
                  (humanApproved q) (metadata q))
      questions.

(** [new PowerPath100(guidingQuestions, quizQuestions, onStatsUpdate)]. *)
Definition new_PowerPath100 (guiding quizzes : list PowerPathQuestion)
    (observer : option Observer) (c : Clock) : PowerPath100 * Clock :=
  let (now, c) := Date_now c in
  (mkEngine 0 0 0 1 now [] [] guiding (normalizeQuizQuestions quizzes) 0 observer, c).

(** ** Score calculation *)

(** [Math.max(4, 14 - Math.floor(this.score / 10))]. *)
Definition calculateIncrement (this : PowerPath100) : Z :=
  Z.max 4 (14 - score this / 10).

Definition calculateDecrement (this : PowerPath100) : Z :=
  if 90 <=? score this then -8
  else if 80 <=? score this then -7
  else if 70 <=? score this then -6
  else if 50 <=? score this then -5
  else if 40 <=? score this then -4
  else if 30 <=? score this then -3
  else if 20 <=? score this then -2
  else -1.

(** ** Snapshots *)

(** [Math.round]: to the nearest integer, halves upwards. *)
Definition Math_round (x : Q) : Z := Qfloor (x + (1 # 2)).

(** [s.padStart(2, '0')]. *)
Definition padStart2 (s : string) : string :=
  match String.length s with
  | 0%nat => "00" ++ s
  | 1%nat => "0" ++ s
  | _ => s
  end%string.

(** [formatTime]: [%] is JavaScript's remainder, which truncates. *)
Definition formatTime (ms : Z) : string :=
  let seconds := ms / 1000 in
  let hours := seconds / 3600 in
  let minutes := Z.rem seconds 3600 / 60 in
  let secs := Z.rem seconds 60 in
  (padStart2 (pretty hours) ++ ":" ++ padStart2 (pretty minutes) ++ ":"
     ++ padStart2 (pretty secs))%string.

Definition getCurrentPhase (this : PowerPath100) : PowerPathState.Phase :=
  if (currentGuidingIndex this <? length (guidingQuestions this))%nat
  then PowerPathState.guiding else PowerPathState.quiz.

(** The quotient [correctAnswers / questionsAnswered] is taken exactly; the
    source takes it in double precision. *)
Definition getState (this : PowerPath100) (c : Clock) : PowerPathState.t * Clock :=
  let (now, c) := Date_now c in
  (PowerPathState.mk
     (score this)
     (questionsAnswered this)
     (correctAnswers this)
     (if (0 <? questionsAnswered this)%nat
      then Math_round
             (inject_Z (Z.of_nat (correctAnswers this))
              / inject_Z (Z.of_nat (questionsAnswered this)) * 100)%Q
      else 0)
     (100 <=? score this)
     (getCurrentPhase this)
     (Z.max 0 (Z.of_nat (length (guidingQuestions this))
               - Z.of_nat (currentGuidingIndex this)))
     (now - startTime this),
   c).

Definition getStats (this : PowerPath100) (c : Clock) : PowerPathStats.t * Clock :=
  let (state, c) := getState this c in
  (PowerPathStats.mk
     (PowerPathState.score state)
     (PowerPathState.questionsAnswered state)
     (PowerPathState.accuracy state)
     (formatTime (PowerPathState.elapsedTimeMs state))
     (PowerPathState.isComplete state),
   c).

(** [if (this.onStatsUpdate) { this.onStatsUpdate(this.getStats()); }]:
    the call is not guarded, so what the observer throws leaves the method. *)
Definition notifyStatsUpdate (this : PowerPath100) (c : Clock)
  : Completion unit * Clock :=
  match onStatsUpdate this with
  | Some observer =>
      let (stats, c) := getStats this c in
      (observer stats, c)
  | None => (Returned tt, c)
  end.

(** ** Recording an answer *)

Definition isComplete (this : PowerPath100) : bool := 100 <=? score this.

Definition recordAnswer (questionId : string) (wasCorrect : bool)
    (this : PowerPath100) (c : Clock) : Completion Z * PowerPath100 * Clock :=
  let this := set_questionsAnswered (S (questionsAnswered this)) this in
  let isGuidingQuestion :=
    ((currentGuidingIndex this <? length (guidingQuestions this))%nat
     && bool_decide (id <$> guidingQuestions this !! currentGuidingIndex this
                     = Some questionId))%bool in
  let (now, c) := Date_now c in
  let historyEntry := mkHistory questionId wasCorrect (currentAttempt this) now in
  let this := set_allQuestionHistory (allQuestionHistory this ++ [historyEntry]) this in
  let this :=
    set_currentAttemptHistory (currentAttemptHistory this ++ [historyEntry]) this in
  let this :=
    if isGuidingQuestion
    then set_currentGuidingIndex (S (currentGuidingIndex this)) this
    else this in
  let '(scoreChange, this) :=
    if wasCorrect then
      let this := set_correctAnswers (S (correctAnswers this)) this in
      let scoreChange := calculateIncrement this in
      (scoreChange, set_score (Z.min 100 (score this + scoreChange)) this)
    else
      let scoreChange := calculateDecrement this in
      (scoreChange, set_score (Z.max 0 (score this + scoreChange)) this) in
  match notifyStatsUpdate this c with
  | (Returned _, c) => (Returned scoreChange, this, c)
  | (Threw e, c) => (Threw e, this, c)
  end.

(** The three components of what a method call leaves behind. *)
Definition completionOf {A} (r : Completion A * PowerPath100 * Clock) : Completion A :=
  fst (fst r).

Definition engineAfter {A} (r : Completion A * PowerPath100 * Clock) : PowerPath100 :=
  snd (fst r).

Definition clockAfter {A} (r : Completion A * PowerPath100 * Clock) : Clock :=
  snd r.

(** A sequence of [recordAnswer] calls; the result lists the engine after
    each call.  A call that throws has still changed the engine, and the
    caller may go on calling. *)
Fixpoint recordAnswers (calls : list (string * bool)) (this : PowerPath100)
    (c : Clock) : list PowerPath100 :=
  match calls with
  | [] => []
  | (questionId, wasCorrect) :: rest =>
      let r := recordAnswer questionId wasCorrect this c in
      engineAfter r :: recordAnswers rest (engineAfter r) (clockAfter r)
  end.

(** ** Resets *)

Definition resetAttempt (this : PowerPath100) (c : Clock)
  : Completion unit * PowerPath100 * Clock :=
  let this := set_score 0 this in
  let this := set_questionsAnswered 0 this in
  let this := set_correctAnswers 0 this in
  let this := set_currentGuidingIndex 0 this in
  let this := set_currentAttemptHistory [] this in
  let this := set_currentAttempt (S (currentAttempt this)) this in
  let (now, c) := Date_now c in
  let this := set_startTime now this in
  let (outcome, c) := notifyStatsUpdate this c in
  (outcome, this, c).

Definition fullReset (this : PowerPath100) (c : Clock)
  : Completion unit * PowerPath100 * Clock :=
  let this := set_score 0 this in
  let this := set_questionsAnswered 0 this in
  let this := set_correctAnswers 0 this in
  let this := set_currentGuidingIndex 0 this in
  let this := set_allQuestionHistory [] this in
  let this := set_currentAttemptHistory [] this in
  let this := set_currentAttempt 1 this in
  let (now, c) := Date_now c in
  let this := set_startTime now this in
  let (outcome, c) := notifyStatsUpdate this c in
  (outcome, this, c).

(** ** Difficulty policy *)

Definition getTargetDifficulty (this : PowerPath100) (g : Rand) : Difficulty * Rand :=
  if 90 <=? score this then (hard, g)
  else if 50 <=? score this then
    let (r, g) := Math_random g in
    (if Qlt_le_dec r (75 # 100) then medium else hard, g)
  else (easy, g).

Definition getFallbackDifficulties (primary : Difficulty) : list Difficulty :=
  match primary with
  | easy => [easy; medium; hard]
  | medium => [medium; hard; easy]
  | hard => [hard; medium; easy]
  end.

(** ** Question selection *)

Definition getGloballySeenQuestionIds (this : PowerPath100) : gset string :=
  list_to_set (questionId <$> allQuestionHistory this).

Definition getCurrentAttemptSeenIds (this : PowerPath100) : gset string :=
  list_to_set (questionId <$> currentAttemptHistory this).

Definition filterByDifficulty (questions : list PowerPathQuestion)
    (d : Difficulty) : list PowerPathQuestion :=
  filter (fun q => difficulty q = d) questions.

Definition filterUnseenQuestions (questions : list PowerPathQuestion)
    (seenIds : gset string) : list PowerPathQuestion :=
  filter (fun q => id q ∉ seenIds) questions.

Section Shuffle.
Context {T : Type}.

(** [[array[i], array[j]] = [array[j], array[i]]]: both reads, then both
    writes.  The loop of [shuffleArray] only calls it with
    [j <= i < array.length] (lemma [random_index_le]), where both reads
    find an element; the other branch stands for indices the loop never
    produces under the contract of [Math.random()]. *)
Definition swap (i j : nat) (array : list T) : list T :=
  match array !! i, array !! j with
  | Some x, Some y => <[j := x]> (<[i := y]> array)
  | _, _ => array
  end.

(** [Math.floor(Math.random() * (i + 1))], the product taken exactly. *)
Definition random_index (r : Q) (i : nat) : nat :=
  Z.to_nat (Qfloor (r * inject_Z (Z.of_nat i + 1))).

(** The loop [for (let i = ...; i > 0; i--)] entered with counter [i]. *)
Fixpoint shuffle_from (i : nat) (array : list T) (g : Rand) : list T * Rand :=
  match i with
  | O => (array, g)
  | S i' =>
      let (r, g) := Math_random g in
      let j := random_index r i in
      shuffle_from i' (swap i j array) g
  end.

Definition shuffleArray (array : list T) (g : Rand) : list T * Rand :=
  shuffle_from (length array - 1) array g.
End Shuffle.

Definition isApproved (q : PowerPathQuestion) : Prop :=
  humanApproved q = Some true.

Global Instance isApproved_dec q : Decision (isApproved q).
Proof. unfold isApproved. apply _. Defined.

Definition prioritizeHumanApproved (questions : list PowerPathQuestion)
    (g : Rand) : list PowerPathQuestion * Rand :=
  let approved := filter isApproved questions in
  let notApproved := filter (fun q => ~ isApproved q) questions in
  let (approved, g) := shuffleArray approved g in
  let (notApproved, g) := shuffleArray notApproved g in
  (approved ++ notApproved, g).

(** One of the three [for (const difficulty of fallbackOrder)] loops:
    [candidates difficulty] is the list whose length the loop body tests.
    [Some] is the [return] inside the body, [None] the loop running out. *)
Fixpoint tryTiers (candidates : Difficulty -> list PowerPathQuestion)
    (fallbackOrder : list Difficulty) (g : Rand)
  : option (option PowerPathQuestion * Rand) :=
  match fallbackOrder with
  | [] => None
  | d :: rest =>
      let unseen := candidates d in
      if (0 <? length unseen)%nat then
        let (prioritized, g) := prioritizeHumanApproved unseen g in
        Some (head prioritized, g)
      else tryTiers candidates rest g
  end.

Definition selectQuizQuestion (this : PowerPath100) (g : Rand)
  : option PowerPathQuestion * Rand :=
  let (targetDifficulty, g) := getTargetDifficulty this g in
  let fallbackOrder := getFallbackDifficulties targetDifficulty in
  let globallySeenIds := getGloballySeenQuestionIds this in
  match tryTiers
          (fun d => filterUnseenQuestions
                      (filterByDifficulty (quizQuestions this) d) globallySeenIds)
          fallbackOrder g with
  | Some result => result
  | None =>
  let currentSeenIds := getCurrentAttemptSeenIds this in
  match tryTiers
          (fun d => filterUnseenQuestions
                      (filterByDifficulty (quizQuestions this) d) currentSeenIds)
          fallbackOrder g with
  | Some result => result
  | None =>
  match tryTiers (fun d => filterByDifficulty (quizQuestions this) d)
          fallbackOrder g with
  | Some result => result
  | None =>
      if (0 <? length (quizQuestions this))%nat then
        let (shuffled, g) := shuffleArray (quizQuestions this) g in
        (head shuffled, g)
      else (None, g)
  end end end.

(** [getNextQuestion] assigns no field; the engine it returns is the one it
    was given. *)
Definition getNextQuestion (this : PowerPath100) (g : Rand)
  : option PowerPathQuestion * PowerPath100 * Rand :=
  if 100 <=? score this then (None, this, g)
  else if (currentGuidingIndex this <? length (guidingQuestions this))%nat then
    (guidingQuestions this !! currentGuidingIndex this, this, g)
  else
    let (question, g) := selectQuizQuestion this g in
    (question, this, g).

(** ** The waterfall as the specification words it

    The candidate sets in the order the waterfall visits them: per tier of
    the fallback order the questions never answered in any attempt, then
    those not answered in the current attempt, then all of the tier.  The
    chosen set is the first that is not empty. *)
Definition candidateSets (this : PowerPath100) (fallbackOrder : list Difficulty)
  : list (list PowerPathQuestion) :=
  map (fun d => filterUnseenQuestions (filterByDifficulty (quizQuestions this) d)
                  (getGloballySeenQuestionIds this)) fallbackOrder
  ++ map (fun d => filterUnseenQuestions (filterByDifficulty (quizQuestions this) d)
                     (getCurrentAttemptSeenIds this)) fallbackOrder
  ++ map (fun d => filterByDifficulty (quizQuestions this) d) fallbackOrder.

Fixpoint firstNonEmpty {A : Type} (sets : list (list A)) : option (list A) :=
  match sets with
  | [] => None
  | s :: rest => if (0 <? length s)%nat then Some s else firstNonEmpty rest
  end.

Definition chosenCandidates (this : PowerPath100) (target : Difficulty)
  : option (list PowerPathQuestion) :=
  firstNonEmpty (candidateSets this (getFallbackDifficulties target)).

(** ** Vocabulary of the statements *)

(** Whether [recordAnswer questionId] will advance the guiding cursor. *)
Definition answersGuidingQuestion (questionId : string) (this : PowerPath100) : bool :=
  ((currentGuidingIndex this <? length (guidingQuestions this))%nat
   && bool_decide (id <$> guidingQuestions this !! currentGuidingIndex this
                   = Some questionId))%bool.

(** The formula delta of an answer, from the score before the call. *)
Definition formulaDelta (wasCorrect : bool) (this : PowerPath100) : Z :=
  if wasCorrect then calculateIncrement this else calculateDecrement this.

(** The engines a program can hold: the constructor's, and what the
    state-changing methods make of one. *)
Inductive reachable : PowerPath100 -> Prop :=
| reachable_new guiding quizzes observer c :
    reachable (fst (new_PowerPath100 guiding quizzes observer c))
| reachable_recordAnswer this questionId wasCorrect c :
    reachable this ->
    reachable (engineAfter (recordAnswer questionId wasCorrect this c))
| reachable_resetAttempt this c :
    reachable this -> reachable (engineAfter (resetAttempt this c))
| reachable_fullReset this c :
    reachable this -> reachable (engineAfter (fullReset this c)).

Section CheckedShuffle.
Context {T : Type}.

(** The shuffle with every array read checked: [None] as soon as a swap
    reads outside the array.  Lemma [shuffleArray_checked] shows that under
    the contract of [Math.random()] this never happens, so that the branch
    of [swap] for such reads is never taken. *)
Definition swap_checked (i j : nat) (array : list T) : option (list T) :=
  match array !! i, array !! j with
  | Some x, Some y => Some (<[j := x]> (<[i := y]> array))
  | _, _ => None
  end.

Fixpoint shuffle_from_checked (i : nat) (array : list T) (g : Rand)
  : option (list T * Rand) :=
  match i with
  | O => Some (array, g)
  | S i' =>
      let (r, g) := Math_random g in
      let j := random_index r i in
      match swap_checked i j array with
      | Some array => shuffle_from_checked i' array g
      | None => None
      end
  end.
End CheckedShuffle.

(** What the body of a waterfall loop returns from the candidates it found
    not empty: the first of the prioritised list. *)
Definition pickFrom (candidates : list PowerPathQuestion) (g : Rand)
  : option PowerPathQuestion * Rand :=
  let (prioritized, g) := prioritizeHumanApproved candidates g in
  (head prioritized, g).

(** The ids that occur in the global history, as a list. *)
Definition globalHistoryIds (this : PowerPath100) : list string :=
  questionId <$> allQuestionHistory this.

(** ** Sample inputs *)

Definition sampleQuestion (i : string) (d : Difficulty) (approved : option bool)
  : PowerPathQuestion :=
  mkQuestion i EmptyString [] d approved None.

Definition sampleClock : Clock := fun n => 1000 * Z.of_nat n.

Definition sampleRand : Rand := fun _ => (1 # 2)%Q.

Definition samplePool : list PowerPathQuestion :=
  [sampleQuestion "e1" easy None; sampleQuestion "e2" easy (Some true);
   sampleQuestion "m1" medium (Some false); sampleQuestion "h1" hard None].

(** A fresh engine without guiding questions. *)
Definition sampleEngine (observer : option Observer) : PowerPath100 :=
  fst (new_PowerPath100 [] samplePool observer sampleClock).

(** The engine after a run of answers, given by their correctness. *)
Definition afterAnswers (answers : list bool) (observer : option Observer)
  : PowerPath100 :=
  default (sampleEngine observer)
    (last (recordAnswers (map (fun w => ("e1", w)) answers)
             (sampleEngine observer) sampleClock)).

(** The engine after [n] correct answers in a row. *)
Definition afterCorrectAnswers (n : nat) (observer : option Observer) : PowerPath100 :=
  afterAnswers (replicate n true) observer.

Definition failingObserver : Observer := fun _ => Threw "observer failed".

Definition quietObserver : Observer := fun _ => Returned tt.

(** A fresh engine with one guiding question before the pool. *)
Definition sampleGuidedEngine : PowerPath100 :=
  fst (new_PowerPath100 [sampleQuestion "g1" medium None] samplePool None
         sampleClock).

(** A completed engine brought down to 92 and up again to 97. *)
Definition engineAt97 : PowerPath100 :=
  afterAnswers (replicate 11 true ++ [false; true]) None.

(** The completed engine brought down by four incorrect answers to 71. *)
Definition engineAt71 : PowerPath100 :=
  afterAnswers (replicate 11 true ++ [false; false; false; false]) None.

(** ** The rest of the class and the conversion helpers *)

Module QuestionCounts.
Record t : Type := mk {
  easy : nat;
  medium : nat;
  hard : nat;
  total : nat
}.
End QuestionCounts.

Definition getQuestionCounts (this : PowerPath100) : QuestionCounts.t :=
  QuestionCounts.mk
    (length (filter (fun q => difficulty q = easy) (quizQuestions this)))
    (length (filter (fun q => difficulty q = medium) (quizQuestions this)))
    (length (filter (fun q => difficulty q = hard) (quizQuestions this)))
    (length (quizQuestions this)).

(** The object literal [accuracyData] of [getExpectedQuestions], a
    dictionary from accuracy to question count; the decimal literals are
    taken as the rationals they denote. *)
Definition accuracyData : gmap Z Q :=
  list_to_map
    [(100, (11 # 1)%Q); (99, (112 # 10)%Q); (95, (122 # 10)%Q);
     (90, (135 # 10)%Q); (80, (171 # 10)%Q); (70, (239 # 10)%Q);
     (60, (353 # 10)%Q); (50, (712 # 10)%Q)].

(** [Object.keys(accuracyData).map(Number)]: the keys are integers, which
    [Object.keys] lists in ascending order. *)
Definition accuracyKeys : list Z :=
  merge_sort Z.le (elements (dom accuracyData)).

(** The loop [for (const acc of accuracies)] with its [return]: the first
    accuracy the argument reaches. *)
Fixpoint firstReached (accuracies : list Z) (accuracyPercent : Q) : option Z :=
  match accuracies with
  | [] => None
  | acc :: rest =>
      if Qle_bool (inject_Z acc) accuracyPercent then Some acc
      else firstReached rest accuracyPercent
  end.

(** The static [getExpectedQuestions].  [sort((a, b) => b - a)] sorts in
    descending order.  [None] stands for the [undefined] that
    [accuracyData[acc]] would be for a missing key. *)
Definition getExpectedQuestions (accuracyPercent : Q) : option Q :=
  let accuracies := merge_sort Z.ge accuracyKeys in
  match firstReached accuracies accuracyPercent with
  | Some acc => accuracyData !! acc
  | None => Some (100 # 1)%Q
  end.

Module SectionMetadata.
(** [humanApproved] is not declared in the interface; the conversion reads
    it through [as any].  A value that is not a boolean is never
    [=== true], so it stands as [None] here. *)
Record t : Type := mk {
  itemId : string;
  dok : option Z;
  difficulty : option string;
  ccss : option string;
  humanApproved : option bool
}.
End SectionMetadata.

Module QuizQuestion.
Record t : Type := mk {
  id : string;
  prompt : string;
  choices : list Choice.t;
  metadata : option SectionMetadata.t;
  articleIndex : option Z;
  articleTitle : option string
}.
End QuizQuestion.

(** A [SectionMetadata] seen through the type of [PowerPathQuestion.metadata]. *)
Definition asPowerPathMetadata (m : SectionMetadata.t) : Metadata.t :=
  Metadata.mk (SectionMetadata.dok m) (SectionMetadata.difficulty m)
    (SectionMetadata.ccss m).

Definition convertToPowerPathQuestion (question : QuizQuestion.t) : PowerPathQuestion :=
  let difficulty : string :=
    match QuizQuestion.metadata question with
    | Some m =>
        match SectionMetadata.difficulty m with
        | Some d =>
            match toLowerCase d with
            | EmptyString => "medium"
            | lower => lower
            end
        | None => "medium"
        end
    | None => "medium"
    end in
  let normalizedDifficulty :=
    if bool_decide (difficulty = "easy" \/ difficulty = "low") then easy
    else if bool_decide (difficulty = "hard" \/ difficulty = "high"
                         \/ difficulty = "difficult")
    then hard
    else medium in
  mkQuestion (QuizQuestion.id question) (QuizQuestion.prompt question)
    (QuizQuestion.choices question) normalizedDifficulty
    (match QuizQuestion.metadata question with
     | Some m => SectionMetadata.humanApproved m
     | None => None
     end)
    (asPowerPathMetadata <$> QuizQuestion.metadata question).

Definition convertQuestionsToPowerPath (questions : list QuizQuestion.t)
  : list PowerPathQuestion :=
  map convertToPowerPathQuestion questions.

(** ** Vocabulary of the further statements *)

(** The engines a program can come to hold from [init]. *)
Inductive reachableFrom (init : PowerPath100) : PowerPath100 -> Prop :=
| reachableFrom_here : reachableFrom init init
| reachableFrom_recordAnswer this questionId wasCorrect c :
    reachableFrom init this ->
    reachableFrom init (engineAfter (recordAnswer questionId wasCorrect this c))
| reachableFrom_resetAttempt this c :
    reachableFrom init this ->
    reachableFrom init (engineAfter (resetAttempt this c))
| reachableFrom_fullReset this c :
    reachableFrom init this ->
    reachableFrom init (engineAfter (fullReset this c)).

(** The engines a program can come to hold from [init] without a
    [fullReset]. *)
Inductive continues (init : PowerPath100) : PowerPath100 -> Prop :=
| continues_here : continues init init
| continues_recordAnswer this questionId wasCorrect c :
    continues init this ->
    continues init (engineAfter (recordAnswer questionId wasCorrect this c))
| continues_resetAttempt this c :
    continues init this ->
    continues init (engineAfter (resetAttempt this c)).

(** What the counters and the two histories of an engine have to do with
    each other. *)
Definition consistent (this : PowerPath100) : Prop :=
  questionsAnswered this = length (currentAttemptHistory this)
  /\ correctAnswers this
     = length (filter (fun h => wasCorrect h = true) (currentAttemptHistory this))
  /\ currentAttemptHistory this `suffix_of` allQuestionHistory this
  /\ (1 <= currentAttempt this)%nat
  /\ Forall (fun h => attemptNumber h = currentAttempt this)
       (currentAttemptHistory this)
  /\ Forall (fun h => (1 <= attemptNumber h <= currentAttempt this)%nat)
       (allQuestionHistory this)
  /\ (currentGuidingIndex this <= length (guidingQuestions this))%nat.

(** The tiers in order of difficulty. *)
Definition tierRank (d : Difficulty) : nat :=
  match d with
  | easy => 0
  | medium => 1
  | hard => 2
  end.

(** The score a correct answer makes of the score [s]. *)
Definition scoreAfterCorrect (s : Z) : Z :=
  Z.min 100 (s + Z.max 4 (14 - s / 10)).

(** The ids that occur in the history of the current attempt, as a list. *)
Definition attemptHistoryIds (this : PowerPath100) : list string :=
  questionId <$> currentAttemptHistory this.

(** The sample engine after every question of the pool was answered,
    incorrectly, in the first attempt; and the same after [resetAttempt]. *)
Definition engineAllSeen : PowerPath100 :=
  default (sampleEngine None)
    (last (recordAnswers [("e1", false); ("e2", false); ("m1", false); ("h1", false)]
             (sampleEngine None) sampleClock)).

Definition engineSecondAttempt : PowerPath100 :=
  engineAfter (resetAttempt engineAllSeen sampleClock).

(** A sample of the questions the game converts. *)
Definition sampleQuizQuestion (i : string) (descriptor : option string)
    (approved : option bool) : QuizQuestion.t :=
  QuizQuestion.mk i EmptyString []
    (Some (SectionMetadata.mk i None descriptor None approved)) None None.

(** * Properties *)

(** ** What [recordAnswer] leaves behind *)

Ltac run_recordAnswer :=
  unfold completionOf, engineAfter, clockAfter, recordAnswer, notifyStatsUpdate,
    answersGuidingQuestion, formulaDelta, getStats, getState, Date_now;
  cbn;
  repeat match goal with
         | |- context [if ?b then _ else _] => destruct b; cbn
         | |- context [match onStatsUpdate ?e with _ => _ end] =>
             destruct (onStatsUpdate e) eqn:?; cbn
         | |- context [match ?o ?s with Returned _ => _ | Threw _ => _ end] =>
             destruct (o s) eqn:?; cbn
         end.

Lemma recordAnswer_score questionId wasCorrect this c :
  score (engineAfter (recordAnswer questionId wasCorrect this c))
  = if wasCorrect
    then Z.min 100 (score this + calculateIncrement this)
    else Z.max 0 (score this + calculateDecrement this).
Proof. run_recordAnswer; reflexivity. Qed.

Lemma recordAnswer_counters questionId wasCorrect this c :
  let after := engineAfter (recordAnswer questionId wasCorrect this c) in
  questionsAnswered after = S (questionsAnswered this)
  /\ correctAnswers after
     = (if wasCorrect then S (correctAnswers this) else correctAnswers this)
  /\ currentGuidingIndex after
     = (if answersGuidingQuestion questionId this
        then S (currentGuidingIndex this) else currentGuidingIndex this)
  /\ currentAttempt after = currentAttempt this
  /\ startTime after = startTime this.
Proof. run_recordAnswer; repeat split. Qed.

Lemma recordAnswer_history questionId wasCorrect this c :
  let after := engineAfter (recordAnswer questionId wasCorrect this c) in
  let entry := mkHistory questionId wasCorrect (currentAttempt this) (c 0%nat) in
  allQuestionHistory after = allQuestionHistory this ++ [entry]
  /\ currentAttemptHistory after = currentAttemptHistory this ++ [entry].
Proof. run_recordAnswer; repeat split. Qed.

Lemma recordAnswer_frame questionId wasCorrect this c :
  let after := engineAfter (recordAnswer questionId wasCorrect this c) in
  guidingQuestions after = guidingQuestions this
  /\ quizQuestions after = quizQuestions this
  /\ onStatsUpdate after = onStatsUpdate this.
Proof. run_recordAnswer; repeat split; congruence. Qed.

(** A value the call returns is the formula delta. *)
Lemma recordAnswer_returned questionId wasCorrect this c d :
  completionOf (recordAnswer questionId wasCorrect this c) = Returned d ->
  d = formulaDelta wasCorrect this.
Proof. run_recordAnswer; intros H; inversion H; reflexivity. Qed.

(** Without an observer the call returns. *)
Lemma recordAnswer_unobserved questionId wasCorrect this c :
  completionOf (recordAnswer questionId wasCorrect (set_onStatsUpdate None this) c)
  = Returned (formulaDelta wasCorrect this).
Proof. run_recordAnswer; reflexivity. Qed.

(** A call throws only what its observer threw. *)
Lemma recordAnswer_threw questionId wasCorrect this c e :
  completionOf (recordAnswer questionId wasCorrect this c) = Threw e ->
  exists observer stats,
    onStatsUpdate this = Some observer /\ observer stats = Threw e.
Proof. run_recordAnswer; intros H; inversion H; subst; eauto. Qed.

Lemma calculateIncrement_lower this : 4 <= calculateIncrement this.
Proof. unfold calculateIncrement. lia. Qed.

Lemma calculateDecrement_bounds this : -8 <= calculateDecrement this <= -1.
Proof.
  unfold calculateDecrement.
  repeat match goal with |- context [?a <=? ?b] => destruct (Z.leb_spec a b) end; lia.
Qed.

Lemma recordAnswer_keeps_range questionId wasCorrect this c :
  0 <= score this <= 100 ->
  0 <= score (engineAfter (recordAnswer questionId wasCorrect this c)) <= 100.
Proof.
  intros Hs. rewrite recordAnswer_score.
  pose proof (calculateIncrement_lower this).
  pose proof (calculateDecrement_bounds this).
  destruct wasCorrect; lia.
Qed.

Lemma recordAnswers_keep_range calls :
  forall this c,
    0 <= score this <= 100 ->
    Forall (fun after => 0 <= score after <= 100) (recordAnswers calls this c).
Proof.
  induction calls as [|[questionId wasCorrect] rest IH]; intros this c Hs; cbn.
  - constructor.
  - constructor.
    + apply recordAnswer_keeps_range, Hs.
    + apply IH, recordAnswer_keeps_range, Hs.
Qed.

(** The constructor's engine starts within the range, and so do the engines
    the two resets leave. *)
Lemma new_PowerPath100_score guiding quizzes observer c :
  score (fst (new_PowerPath100 guiding quizzes observer c)) = 0.
Proof. reflexivity. Qed.

Lemma resetAttempt_score this c : score (engineAfter (resetAttempt this c)) = 0.
Proof.
  unfold engineAfter, resetAttempt, notifyStatsUpdate, Date_now; cbn.
  destruct (onStatsUpdate this); reflexivity.
Qed.

Lemma fullReset_score this c : score (engineAfter (fullReset this c)) = 0.
Proof.
  unfold engineAfter, fullReset, notifyStatsUpdate, Date_now; cbn.
  destruct (onStatsUpdate this); reflexivity.
Qed.

Lemma reachable_score_range this : reachable this -> 0 <= score this <= 100.
Proof.
  induction 1.
  - rewrite new_PowerPath100_score. lia.
  - apply recordAnswer_keeps_range. assumption.
  - rewrite resetAttempt_score. lia.
  - rewrite fullReset_score. lia.
Qed.

(** ** The score model *)

(** C1. Score invariant: from every engine whose score lies in 0..100, and
    so from the engine the constructor makes of any pools and observer,
    after each call of every finite sequence of [recordAnswer] calls,
    whatever the question ids and the correctness flags, the score lies in
    0..100 again; and every call clamps: [min(100, score + delta)] when
    correct, [max(0, score + delta)] when not. *)
Theorem score_invariant :
  forall (this : PowerPath100) (calls : list (string * bool)) (c : Clock),
    0 <= score this <= 100 ->
    Forall (fun after => 0 <= score after <= 100) (recordAnswers calls this c)
    /\ (forall guiding quizzes observer c0,
          Forall (fun after => 0 <= score after <= 100)
            (recordAnswers calls
               (fst (new_PowerPath100 guiding quizzes observer c0)) c))
    /\ (forall (before : PowerPath100) questionId wasCorrect c',
          score (engineAfter (recordAnswer questionId wasCorrect before c'))
          = if wasCorrect
            then Z.min 100 (score before + calculateIncrement before)
            else Z.max 0 (score before + calculateDecrement before)).
Proof.
  intros this calls c Hs. split; [|split].
  - apply recordAnswers_keep_range, Hs.
  - intros. apply recordAnswers_keep_range.
    rewrite new_PowerPath100_score. lia.
  - intros. apply recordAnswer_score.
Qed.

Lemma score_invariant_witness :
  Forall (fun after => 0 <= score after <= 100)
    (recordAnswers [("e1", true); ("zz", false); ("e1", true)]
       engineAt97 sampleClock).
Proof.
  assert (Hrange : 0 <= score engineAt97 <= 100)
    by (vm_compute; split; discriminate).
  exact (proj1 (score_invariant engineAt97
                  [("e1", true); ("zz", false); ("e1", true)] sampleClock Hrange)).
Defined.

(** The invariant on the engines a program can hold. *)
Lemma reachable_keeps_range this calls c :
  reachable this ->
  Forall (fun after => 0 <= score after <= 100) (recordAnswers calls this c).
Proof. intros Hr. apply recordAnswers_keep_range, reachable_score_range, Hr. Qed.

(** The header of the source: with every answer correct, 11 questions
    reach 100. *)
Example eleven_correct_answers_complete :
  map score (recordAnswers (replicate 11 ("e1", true)) (sampleEngine None) sampleClock)
  = [14; 27; 39; 50; 59; 68; 76; 83; 89; 95; 100].
Proof. vm_compute. reflexivity. Qed.

(** C2. Correct answers: at every score [s], [recordAnswer] with
    [wasCorrect = true] computes [delta = max(4, 14 - floor(s/10))] and
    sets the score to [min(100, s + delta)]; a value it returns is that
    delta, and without an observer it returns.  From score 0 three correct
    answers give 14, 27, 39, and a correct answer at 96 gives exactly 100. *)
Theorem correct_answer_score_model :
  forall (this : PowerPath100) (q1 q2 q3 : string) (c : Clock),
    let s := score this in
    let delta := Z.max 4 (14 - s / 10) in
    let r := recordAnswer q1 true this c in
    calculateIncrement this = delta
    /\ score (engineAfter r) = Z.min 100 (s + delta)
    /\ (forall d, completionOf r = Returned d -> d = delta)
    /\ completionOf (recordAnswer q1 true (set_onStatsUpdate None this) c)
       = Returned delta
    /\ map score (recordAnswers [(q1, true); (q2, true); (q3, true)]
                    (set_score 0 this) c) = [14; 27; 39]
    /\ score (engineAfter (recordAnswer q1 true (set_score 96 this) c)) = 100.
Proof.
  intros this q1 q2 q3 c s delta r. subst s delta r.
  split; [reflexivity|].
  split; [apply (recordAnswer_score q1 true)|].
  split; [intros d Hd; apply (recordAnswer_returned _ _ _ _ _ Hd)|].
  split; [apply (recordAnswer_unobserved q1 true)|].
  split.
  - cbn [recordAnswers map].
    repeat (rewrite !(recordAnswer_score _ true); unfold calculateIncrement).
    reflexivity.
  - rewrite (recordAnswer_score _ true). reflexivity.
Qed.

Lemma correct_answer_score_model_witness :
  12 = Z.max 4 (14 - score (afterCorrectAnswers 2 None) / 10).
Proof.
  pose proof (correct_answer_score_model (afterCorrectAnswers 2 None)
                "e1" "e2" "m1" sampleClock) as H.
  cbv zeta in H.
  destruct H as (_ & _ & H & _).
  apply (H 12). vm_compute. reflexivity.
Defined.

(** C3. Incorrect answers: at every score [s], [recordAnswer] with
    [wasCorrect = false] takes its delta from the bracket of [s], lower
    bounds included (90 and up: -8, 80: -7, 70: -6, 50: -5, 40: -4, 30: -3,
    20: -2, below 20: -1), and sets the score to [max(0, s + delta)]; a
    value it returns is that delta, and without an observer it returns.
    The delta is -8 at 90 and -7 at 89. *)
Theorem incorrect_answer_score_model :
  forall (this : PowerPath100) (questionId : string) (c : Clock),
    let s := score this in
    let delta := calculateDecrement this in
    let r := recordAnswer questionId false this c in
    (90 <= s -> delta = -8)
    /\ (80 <= s < 90 -> delta = -7)
    /\ (70 <= s < 80 -> delta = -6)
    /\ (50 <= s < 70 -> delta = -5)
    /\ (40 <= s < 50 -> delta = -4)
    /\ (30 <= s < 40 -> delta = -3)
    /\ (20 <= s < 30 -> delta = -2)
    /\ (s < 20 -> delta = -1)
    /\ score (engineAfter r) = Z.max 0 (s + delta)
    /\ (forall d, completionOf r = Returned d -> d = delta)
    /\ completionOf (recordAnswer questionId false (set_onStatsUpdate None this) c)
       = Returned delta
    /\ calculateDecrement (set_score 90 this) = -8
    /\ calculateDecrement (set_score 89 this) = -7.
Proof.
  intros this questionId c s delta r. subst s delta r.
  unfold calculateDecrement at 1 2 3 4 5 6 7 8.
  repeat match goal with
         | |- context [?a <=? score this] => destruct (Z.leb_spec a (score this))
         end;
    (repeat (split; [lia|]));
    (split; [apply (recordAnswer_score questionId false)|]);
    (split; [intros d Hd; apply (recordAnswer_returned _ _ _ _ _ Hd)|]);
    (split; [apply (recordAnswer_unobserved questionId false)|]);
    split; reflexivity.
Qed.

Lemma incorrect_answer_score_model_witness :
  calculateDecrement (set_score 90 (sampleEngine None)) = -8
  /\ calculateDecrement (afterCorrectAnswers 9 None) = -7
  /\ calculateDecrement (sampleEngine None) = -1.
Proof.
  pose proof (incorrect_answer_score_model (set_score 90 (sampleEngine None))
                "e1" sampleClock) as H90.
  pose proof (incorrect_answer_score_model (afterCorrectAnswers 9 None)
                "e1" sampleClock) as H89.
  pose proof (incorrect_answer_score_model (sampleEngine None)
                "e1" sampleClock) as H0.
  cbv zeta in H90, H89, H0.
  destruct H90 as (H90 & _).
  destruct H89 as (_ & H89 & _).
  destruct H0 as (_ & _ & _ & _ & _ & _ & _ & H0 & _).
  split; [apply H90; vm_compute; discriminate|].
  split; [apply H89; vm_compute; split; [discriminate|reflexivity]|].
  apply H0. vm_compute. reflexivity.
Defined.

(** C9, as the specification words it, fails: after ten correct answers
    the score is 95, inside 91..99, and the eleventh correct answer returns
    5 while the score rises by exactly 5, to 100; and at each score of 1..7
    an incorrect answer returns -1 while the score falls by exactly 1. *)
Lemma returned_delta_counterexample :
  91 <= score (afterCorrectAnswers 10 None) <= 99
  /\ completionOf (recordAnswer "e1" true (afterCorrectAnswers 10 None) sampleClock)
     = Returned 5
  /\ score (engineAfter
              (recordAnswer "e1" true (afterCorrectAnswers 10 None) sampleClock))
     - score (afterCorrectAnswers 10 None) = 5
  /\ ~ (score (engineAfter
                 (recordAnswer "e1" true (afterCorrectAnswers 10 None) sampleClock))
        - score (afterCorrectAnswers 10 None) < 5)
  /\ Forall (fun s =>
               completionOf
                 (recordAnswer "e1" false (set_score s (sampleEngine None))
                    sampleClock) = Returned (-1)
               /\ s - score (engineAfter
                               (recordAnswer "e1" false
                                  (set_score s (sampleEngine None)) sampleClock))
                  = 1)
            [1; 2; 3; 4; 5; 6; 7].
Proof.
  split; [vm_compute; split; discriminate|].
  split; [vm_compute; reflexivity|].
  split; [vm_compute; reflexivity|].
  split; [vm_compute; discriminate|].
  repeat constructor.
Qed.

(** C9, amended.  A value [recordAnswer] returns is the formula delta of the
    score before the call, not the change of the score.  A correct answer
    at a score of 96..99 has delta 5, more than the rise to 100; at 0..95
    the rise is the delta.  An incorrect answer at score 0 has delta -1
    while the score stays 0; at 1..100 the fall is the magnitude of the
    delta. *)
Theorem returned_delta_is_formula_delta :
  forall (this : PowerPath100) (questionId : string) (c : Clock),
    let s := score this in
    let up := recordAnswer questionId true this c in
    let down := recordAnswer questionId false this c in
    (forall d, completionOf up = Returned d -> d = calculateIncrement this)
    /\ (forall d, completionOf down = Returned d -> d = calculateDecrement this)
    /\ (96 <= s <= 99 ->
        calculateIncrement this = 5
        /\ score (engineAfter up) = 100
        /\ score (engineAfter up) - s < calculateIncrement this)
    /\ (0 <= s <= 95 -> score (engineAfter up) - s = calculateIncrement this)
    /\ (s = 0 ->
        calculateDecrement this = -1
        /\ score (engineAfter down) = 0
        /\ s - score (engineAfter down) < - calculateDecrement this)
    /\ (1 <= s <= 100 -> s - score (engineAfter down) = - calculateDecrement this).
Proof.
  intros this questionId c s up down. subst s up down.
  split; [intros d Hd; apply (recordAnswer_returned _ _ _ _ _ Hd)|].
  split; [intros d Hd; apply (recordAnswer_returned _ _ _ _ _ Hd)|].
  rewrite (recordAnswer_score questionId true), (recordAnswer_score questionId false).
  pose proof (calculateDecrement_bounds this) as Hdec.
  assert (Hlow : score this < 20 -> calculateDecrement this = -1).
  { intros Hs. unfold calculateDecrement.
    repeat match goal with
           | |- context [?a <=? score this] => destruct (Z.leb_spec a (score this))
           end; lia. }
  assert (Hsmall : 1 <= score this <= 100 -> 0 <= score this + calculateDecrement this).
  { intros Hs. destruct (Z.lt_ge_cases (score this) 20) as [Hlt|Hge].
    - rewrite (Hlow Hlt). lia.
    - lia. }
  unfold calculateIncrement.
  repeat split; intros; Z.div_mod_to_equations; lia.
Qed.

Lemma returned_delta_is_formula_delta_witness :
  (calculateIncrement engineAt97 = 5
   /\ score (engineAfter (recordAnswer "e1" true engineAt97 sampleClock)) = 100
   /\ score (engineAfter (recordAnswer "e1" true engineAt97 sampleClock))
      - score engineAt97 < calculateIncrement engineAt97)
  /\ (calculateDecrement (sampleEngine None) = -1
      /\ score (engineAfter (recordAnswer "e1" false (sampleEngine None) sampleClock))
         = 0
      /\ score (sampleEngine None)
         - score (engineAfter
                    (recordAnswer "e1" false (sampleEngine None) sampleClock))
         < - calculateDecrement (sampleEngine None))
  /\ 5 = calculateIncrement engineAt97
  /\ -6 = calculateDecrement engineAt71
  /\ score (engineAfter (recordAnswer "e1" true engineAt71 sampleClock))
     - score engineAt71 = calculateIncrement engineAt71
  /\ score engineAt71
     - score (engineAfter (recordAnswer "e1" false engineAt71 sampleClock))
     = - calculateDecrement engineAt71.
Proof.
  pose proof (returned_delta_is_formula_delta engineAt97 "e1" sampleClock) as H97.
  pose proof (returned_delta_is_formula_delta (sampleEngine None)
                "e1" sampleClock) as H0.
  pose proof (returned_delta_is_formula_delta engineAt71 "e1" sampleClock) as H68.
  cbv zeta in H97, H0, H68.
  destruct H97 as (Hret & _ & H97 & _).
  destruct H0 as (_ & _ & _ & _ & H0 & _).
  destruct H68 as (_ & Hret' & _ & Hup & _ & Hdown).
  split; [apply H97; vm_compute; split; discriminate|].
  split; [apply H0; vm_compute; reflexivity|].
  split; [apply Hret; vm_compute; reflexivity|].
  split; [apply Hret'; vm_compute; reflexivity|].
  split; [apply Hup; vm_compute; split; discriminate|].
  apply Hdown; vm_compute; split; discriminate.
Defined.

(** ** Completion and resets *)

(** C10. Completion is not absorbing: [recordAnswer] does not look at
    completeness.  On every engine whose score is exactly 100, where
    [isComplete()] is true, [recordAnswer(q, false)] sets the score to 92,
    after which [isComplete()] is false, and it still increments
    [questionsAnswered] and appends the entry to both histories. *)
Theorem completion_not_absorbing :
  forall (this : PowerPath100) (questionId : string) (c : Clock),
    score this = 100 ->
    let after := engineAfter (recordAnswer questionId false this c) in
    let entry := mkHistory questionId false (currentAttempt this) (c 0%nat) in
    isComplete this = true
    /\ score after = 92
    /\ isComplete after = false
    /\ questionsAnswered after = S (questionsAnswered this)
    /\ allQuestionHistory after = allQuestionHistory this ++ [entry]
    /\ currentAttemptHistory after = currentAttemptHistory this ++ [entry].
Proof.
  intros this questionId c Hs after entry. subst after entry.
  assert (Hafter : score (engineAfter (recordAnswer questionId false this c)) = 92).
  { rewrite (recordAnswer_score questionId false).
    unfold calculateDecrement. rewrite Hs. reflexivity. }
  pose proof (recordAnswer_counters questionId false this c) as (Hn & _).
  pose proof (recordAnswer_history questionId false this c) as (Hall & Hcur).
  unfold isComplete. rewrite Hafter, Hs.
  repeat split; assumption.
Qed.

Lemma completion_not_absorbing_witness :
  isComplete (afterCorrectAnswers 11 None) = true
  /\ score (engineAfter
              (recordAnswer "h1" false (afterCorrectAnswers 11 None) sampleClock))
     = 92
  /\ isComplete (engineAfter
                   (recordAnswer "h1" false (afterCorrectAnswers 11 None)
                      sampleClock)) = false
  /\ questionsAnswered
       (engineAfter
          (recordAnswer "h1" false (afterCorrectAnswers 11 None) sampleClock))
     = 12%nat.
Proof.
  pose proof (completion_not_absorbing (afterCorrectAnswers 11 None) "h1"
                sampleClock) as H.
  cbv zeta in H.
  destruct H as (Hdone & Hscore & Hopen & Hn & _); [vm_compute; reflexivity|].
  repeat split; assumption.
Defined.

(** C7. [resetAttempt], on every engine: score, [questionsAnswered],
    [correctAnswers] and the guiding cursor become 0, the attempt history
    becomes empty, the attempt number grows by exactly 1 and the start time
    is read anew from the clock; the global history, both pools and the
    observer stay as they were. *)
Theorem resetAttempt_effect_and_frame :
  forall (this : PowerPath100) (c : Clock),
    let after := engineAfter (resetAttempt this c) in
    score after = 0
    /\ questionsAnswered after = 0%nat
    /\ correctAnswers after = 0%nat
    /\ currentGuidingIndex after = 0%nat
    /\ currentAttemptHistory after = []
    /\ currentAttempt after = S (currentAttempt this)
    /\ startTime after = fst (Date_now c)
    /\ allQuestionHistory after = allQuestionHistory this
    /\ guidingQuestions after = guidingQuestions this
    /\ quizQuestions after = quizQuestions this
    /\ onStatsUpdate after = onStatsUpdate this.
Proof.
  intros this c.
  unfold engineAfter, resetAttempt, notifyStatsUpdate, Date_now; cbn.
  destruct (onStatsUpdate this) eqn:Hobs; cbn; repeat split; congruence.
Qed.

(** The scenario of the specification: after a first attempt that reached
    100, [resetAttempt] gives score 0 and attempt 2, and the question seen
    in the first attempt is still among the globally seen ids. *)
Example resetAttempt_after_completion :
  forall after,
    after = engineAfter (resetAttempt (afterCorrectAnswers 11 None) sampleClock) ->
    score (afterCorrectAnswers 11 None) = 100
    /\ score after = 0
    /\ currentAttempt after = 2%nat
    /\ ("e1" ∈ getGloballySeenQuestionIds after)
    /\ "e1" ∉ getCurrentAttemptSeenIds after.
Proof.
  intros after ->. repeat split; try reflexivity.
  vm_compute. intros H. inversion H.
Qed.

(** ** The observer *)

(** C6, as the specification words it, fails: with an observer that throws,
    [recordAnswer] on a fresh engine does not return the delta; what the
    observer threw leaves the call. *)
Lemma observer_isolation_counterexample :
  completionOf
    (recordAnswer "e1" true (sampleEngine (Some failingObserver)) sampleClock)
  = Threw "observer failed"
  /\ ~ (exists delta,
          completionOf
            (recordAnswer "e1" true (sampleEngine (Some failingObserver))
               sampleClock) = Returned delta).
Proof.
  split.
  - reflexivity.
  - intros [delta H]. vm_compute in H. discriminate H.
Qed.

(** C6, amended.  The observer is called last and unguarded.  With an
    observer registered, the engine after [recordAnswer] is the engine the
    same call leaves when no observer is registered, observer put back: the
    score, the counters, the histories and the cursor are in place whatever
    the observer does.  When the observer throws on the snapshot it is
    handed, the call throws the same and returns no delta; when it returns,
    the call returns the formula delta. *)
Theorem observer_failure_propagates :
  forall (this : PowerPath100) (questionId : string) (wasCorrect : bool)
         (c : Clock) (observer : Observer),
    onStatsUpdate this = Some observer ->
    let r := recordAnswer questionId wasCorrect this c in
    let unobserved :=
      recordAnswer questionId wasCorrect (set_onStatsUpdate None this) c in
    let snapshot := fst (getStats (engineAfter r) (snd (Date_now c))) in
    engineAfter r = set_onStatsUpdate (Some observer) (engineAfter unobserved)
    /\ (forall e, observer snapshot = Threw e -> completionOf r = Threw e)
    /\ (forall u, observer snapshot = Returned u ->
                  completionOf r = Returned (formulaDelta wasCorrect this)).
Proof.
  intros this questionId wasCorrect c observer Hobs r unobserved snapshot.
  subst r unobserved snapshot.
  destruct this as [s qa ca att st allh curh gq qq idx obs].
  cbn in Hobs. subst obs.
  unfold completionOf, engineAfter, recordAnswer, notifyStatsUpdate, formulaDelta,
    getStats, getState, Date_now; cbn.
  destruct wasCorrect, (_ && _)%bool; cbn;
    match goal with
    | |- context [observer ?x] => destruct (observer x) eqn:Hcall
    end; cbn;
    (split; [reflexivity|]); split; intros ? H;
    match type of Hcall with
    | observer ?x = _ =>
        match type of H with
        | observer ?y = _ => change y with x in H
        end
    end;
    rewrite Hcall in H; inversion H; reflexivity.
Qed.

Lemma observer_failure_propagates_witness :
  completionOf
    (recordAnswer "e1" true (sampleEngine (Some failingObserver)) sampleClock)
  = Threw "observer failed"
  /\ score (engineAfter
              (recordAnswer "e1" true (sampleEngine (Some failingObserver))
                 sampleClock)) = 14
  /\ questionsAnswered
       (engineAfter
          (recordAnswer "e1" true (sampleEngine (Some failingObserver))
             sampleClock)) = 1%nat
  /\ completionOf
       (recordAnswer "e1" true (sampleEngine (Some quietObserver)) sampleClock)
     = Returned 14.
Proof.
  pose proof (observer_failure_propagates (sampleEngine (Some failingObserver))
                "e1" true sampleClock failingObserver eq_refl) as H.
  pose proof (observer_failure_propagates (sampleEngine (Some quietObserver))
                "e1" true sampleClock quietObserver eq_refl) as H'.
  cbv zeta in H, H'.
  destruct H as (Hstate & Hthrow & _).
  destruct H' as (_ & _ & Hreturn).
  split; [apply Hthrow; reflexivity|].
  rewrite Hstate.
  split; [reflexivity|]. split; [reflexivity|].
  apply (Hreturn tt). reflexivity.
Defined.

(** ** The shuffle *)

Section ShuffleFacts.
Context {T : Type}.
Implicit Types (array : list T) (g : Rand).

Lemma swap_Permutation i j array : swap i j array ≡ₚ array.
Proof.
  unfold swap.
  destruct (array !! i) as [x|] eqn:Hi; [|reflexivity].
  destruct (array !! j) as [y|] eqn:Hj; [|reflexivity].
  apply Permutation_insert_swap; assumption.
Qed.

(** Under the contract of [Math.random()] the drawn index is at most [i]. *)
Lemma random_index_le (r : Q) (i : nat) :
  (0 <= r)%Q -> (r < 1)%Q -> (random_index r i <= i)%nat.
Proof.
  intros H0 H1. unfold random_index.
  set (n := (Z.of_nat i + 1)%Z).
  assert (Hn : (0 < inject_Z n)%Q).
  { change 0%Q with (inject_Z 0). rewrite <- Zlt_Qlt. subst n. lia. }
  assert (Hlt : (r * inject_Z n < inject_Z n)%Q).
  { rewrite <- (Qmult_1_l (inject_Z n)) at 2.
    apply Qmult_lt_compat_r; assumption. }
  assert (Hfl : (Qfloor (r * inject_Z n) < n)%Z).
  { rewrite Zlt_Qlt. eapply Qle_lt_trans; [apply Qfloor_le|exact Hlt]. }
  subst n. lia.
Qed.

(** So both reads of the swap find an element, and the swap is the two
    writes. *)
Lemma swap_in_range i j array :
  (j <= i < length array)%nat ->
  exists x y,
    array !! i = Some x /\ array !! j = Some y
    /\ swap i j array = <[j := x]> (<[i := y]> array).
Proof.
  intros [Hji Hi].
  destruct (lookup_lt_is_Some_2 array i Hi) as [x Hx].
  destruct (lookup_lt_is_Some_2 array j ltac:(lia)) as [y Hy].
  exists x, y. unfold swap. rewrite Hx, Hy. auto.
Qed.

Lemma swap_length i j array : length (swap i j array) = length array.
Proof. apply Permutation_length, swap_Permutation. Qed.

Lemma shuffle_from_Permutation i :
  forall array g, fst (shuffle_from i array g) ≡ₚ array.
Proof.
  induction i as [|i IH]; intros array g; cbn.
  - reflexivity.
  - rewrite IH. apply swap_Permutation.
Qed.

Lemma shuffleArray_Permutation array g : fst (shuffleArray array g) ≡ₚ array.
Proof. apply shuffle_from_Permutation. Qed.

Lemma unit_draws_tail g : unit_draws g -> unit_draws (snd (Math_random g)).
Proof. intros Hg n. apply (Hg (S n)). Qed.

Lemma swap_checked_in_range i j array :
  (j <= i < length array)%nat ->
  swap_checked i j array = Some (swap i j array).
Proof.
  intros Hij. destruct (swap_in_range i j array Hij) as (x & y & Hx & Hy & Hswap).
  unfold swap_checked. rewrite Hx, Hy, Hswap. reflexivity.
Qed.

(** Every read of a shuffle is within the array. *)
Lemma shuffle_from_checked_agrees i :
  forall array g,
    unit_draws g -> (i < length array \/ i = 0)%nat ->
    shuffle_from_checked i array g = Some (shuffle_from i array g).
Proof.
  induction i as [|i IH]; intros array g Hg Hi; [reflexivity|].
  cbn [shuffle_from_checked shuffle_from]. unfold Math_random.
  destruct (Hg 0%nat) as [H0 H1].
  pose proof (random_index_le (g 0%nat) (S i) H0 H1) as Hj.
  rewrite swap_checked_in_range by lia.
  apply IH.
  - apply (unit_draws_tail g Hg).
  - rewrite swap_length. lia.
Qed.

Lemma shuffle_from_unit_draws i :
  forall array g, unit_draws g -> unit_draws (snd (shuffle_from i array g)).
Proof.
  induction i as [|i IH]; intros array g Hg; cbn [shuffle_from].
  - exact Hg.
  - unfold Math_random. apply IH. apply (unit_draws_tail g Hg).
Qed.

Lemma shuffleArray_unit_draws array g :
  unit_draws g -> unit_draws (snd (shuffleArray array g)).
Proof. apply shuffle_from_unit_draws. Qed.

Lemma shuffleArray_checked array g :
  unit_draws g ->
  shuffle_from_checked (length array - 1) array g = Some (shuffleArray array g).
Proof.
  intros Hg. apply shuffle_from_checked_agrees; [exact Hg|].
  destruct array; cbn; lia.
Qed.
End ShuffleFacts.

(** ** Approved first *)

Lemma prioritizeHumanApproved_parts questions g :
  let approved := shuffleArray (filter isApproved questions) g in
  let others :=
    shuffleArray (filter (fun q => ~ isApproved q) questions) (snd approved) in
  prioritizeHumanApproved questions g = (fst approved ++ fst others, snd others)
  /\ fst approved ≡ₚ filter isApproved questions
  /\ fst others ≡ₚ filter (fun q => ~ isApproved q) questions.
Proof.
  cbv zeta. unfold prioritizeHumanApproved.
  destruct (shuffleArray (filter isApproved questions) g) as [approved g1] eqn:Ha.
  cbn [fst snd].
  destruct (shuffleArray (filter (fun q => ~ isApproved q) questions) g1)
    as [others g2] eqn:Ho.
  cbn [fst snd]. split; [reflexivity|]. split.
  - change approved with (fst (approved, g1)). rewrite <- Ha.
    apply shuffleArray_Permutation.
  - change others with (fst (others, g2)). rewrite <- Ho.
    apply shuffleArray_Permutation.
Qed.

Lemma approved_partition_Permutation (questions : list PowerPathQuestion) :
  filter isApproved questions ++ filter (fun q => ~ isApproved q) questions
  ≡ₚ questions.
Proof.
  induction questions as [|q rest IH]; [reflexivity|].
  rewrite !filter_cons.
  destruct (decide (isApproved q)); destruct (decide (~ isApproved q));
    try contradiction; cbn.
  - f_equiv. exact IH.
  - rewrite <- Permutation_middle. f_equiv. exact IH.
Qed.

Lemma prioritizeHumanApproved_Permutation questions g :
  fst (prioritizeHumanApproved questions g) ≡ₚ questions.
Proof.
  destruct (prioritizeHumanApproved_parts questions g) as (-> & Ha & Ho).
  cbn [fst]. rewrite Ha, Ho. apply approved_partition_Permutation.
Qed.

(** The first element of the prioritised list is a candidate, and an
    approved one as soon as some candidate is approved. *)
Lemma head_prioritized questions g :
  questions <> [] ->
  exists q,
    head (fst (prioritizeHumanApproved questions g)) = Some q
    /\ q ∈ questions
    /\ (Exists isApproved questions -> isApproved q).
Proof.
  intros Hne.
  pose proof (prioritizeHumanApproved_Permutation questions g) as Hperm.
  destruct (prioritizeHumanApproved_parts questions g) as (Heq & Ha & _).
  cbv zeta in Heq, Ha.
  destruct (fst (prioritizeHumanApproved questions g)) as [|q rest] eqn:Hp.
  - apply Permutation_nil_l in Hperm. congruence.
  - exists q. split; [reflexivity|]. split.
    + rewrite <- Hperm. left.
    + intros Hex.
      rewrite Heq in Hp. cbn [fst] in Hp.
      destruct (fst (shuffleArray (filter isApproved questions) g))
        as [|a approved] eqn:Hs.
      * apply Permutation_nil_l in Ha.
        apply Exists_exists in Hex as (x & Hx & Hax).
        assert (Hin : x ∈ filter isApproved questions).
        { apply list_elem_of_filter. split; assumption. }
        rewrite <- Ha in Hin. inversion Hin.
      * cbn in Hp. inversion Hp; subst a.
        assert (Hin : q ∈ filter isApproved questions).
        { rewrite <- Ha. left. }
        apply list_elem_of_filter in Hin as [Hq _]. exact Hq.
Qed.

(** ** The waterfall *)

Lemma firstNonEmpty_app {A : Type} (xs ys : list (list A)) :
  firstNonEmpty (xs ++ ys)
  = match firstNonEmpty xs with
    | Some s => Some s
    | None => firstNonEmpty ys
    end.
Proof.
  induction xs as [|s xs IH]; cbn [firstNonEmpty app]; [reflexivity|].
  destruct (0 <? length s)%nat; [reflexivity|exact IH].
Qed.

Lemma firstNonEmpty_Some {A : Type} (sets : list (list A)) (s : list A) :
  firstNonEmpty sets = Some s -> s <> [] /\ s ∈ sets.
Proof.
  induction sets as [|x sets IH]; cbn [firstNonEmpty]; [discriminate|].
  destruct (Nat.ltb_spec 0 (length x)) as [Hlen|Hlen].
  - intros [= ->]. split; [|left].
    intros ->. cbn in Hlen. lia.
  - intros H. destruct (IH H) as [Hne Hin]. split; [exact Hne|right; exact Hin].
Qed.

Lemma firstNonEmpty_None {A : Type} (sets : list (list A)) :
  firstNonEmpty sets = None -> forall s, s ∈ sets -> s = [].
Proof.
  induction sets as [|x sets IH]; cbn [firstNonEmpty]; intros H s Hs.
  - inversion Hs.
  - destruct (Nat.ltb_spec 0 (length x)) as [Hlen|Hlen]; [discriminate|].
    apply elem_of_cons in Hs as [->|Hs].
    + destruct x; [reflexivity|cbn in Hlen; lia].
    + apply IH; assumption.
Qed.

(** A loop of the waterfall returns from the first tier whose candidates
    are not empty. *)
Lemma tryTiers_firstNonEmpty candidates fallbackOrder g :
  tryTiers candidates fallbackOrder g
  = (fun found => pickFrom found g) <$> firstNonEmpty (map candidates fallbackOrder).
Proof.
  induction fallbackOrder as [|d rest IH];
    cbn [tryTiers firstNonEmpty map]; [reflexivity|].
  destruct (0 <? length (candidates d))%nat; [|exact IH].
  cbn. unfold pickFrom.
  destruct (prioritizeHumanApproved (candidates d) g). reflexivity.
Qed.

Lemma fallback_covers_all_tiers (primary d : Difficulty) :
  d ∈ getFallbackDifficulties primary.
Proof. destruct primary, d; cbn; set_solver. Qed.

Lemma fallback_starts_with_primary (primary : Difficulty) :
  head (getFallbackDifficulties primary) = Some primary.
Proof. destruct primary; reflexivity. Qed.

(** When no tier has a question, the pool has none: the last resort of
    [selectQuizQuestion], the shuffle of the whole pool, is never taken. *)
Lemma all_tiers_empty_pool_empty (questions : list PowerPathQuestion) primary :
  firstNonEmpty (map (fun d => filterByDifficulty questions d)
                   (getFallbackDifficulties primary)) = None ->
  questions = [].
Proof.
  intros Hnone. destruct questions as [|q rest]; [reflexivity|].
  pose proof (firstNonEmpty_None _ Hnone
                (filterByDifficulty (q :: rest) (difficulty q))) as Hempty.
  assert (Hin : q ∈ filterByDifficulty (q :: rest) (difficulty q)).
  { apply list_elem_of_filter. split; [reflexivity|left]. }
  rewrite Hempty in Hin; [inversion Hin|].
  apply (list_elem_of_fmap_2 (fun d => filterByDifficulty (q :: rest) d)).
  apply fallback_covers_all_tiers.
Qed.

Lemma chosenCandidates_None this target :
  chosenCandidates this target = None -> quizQuestions this = [].
Proof.
  unfold chosenCandidates, candidateSets. rewrite !firstNonEmpty_app.
  repeat match goal with
         | |- context [match ?x with Some _ => _ | None => _ end] =>
             destruct x; [discriminate|]
         end.
  apply all_tiers_empty_pool_empty.
Qed.

(** [selectQuizQuestion] picks from the chosen candidate set. *)
Lemma selectQuizQuestion_chosen this g :
  selectQuizQuestion this g
  = let target := fst (getTargetDifficulty this g) in
    let g1 := snd (getTargetDifficulty this g) in
    match chosenCandidates this target with
    | Some candidates => pickFrom candidates g1
    | None => (None, g1)
    end.
Proof.
  cbv zeta. unfold selectQuizQuestion.
  destruct (getTargetDifficulty this g) as [target g1]. cbn [fst snd].
  pose proof (chosenCandidates_None this target) as Hnone.
  unfold chosenCandidates, candidateSets in *.
  rewrite !firstNonEmpty_app in *. rewrite !tryTiers_firstNonEmpty.
  repeat match goal with
         | |- context [firstNonEmpty ?x] => destruct (firstNonEmpty x); cbn
         end; try reflexivity.
  rewrite (Hnone eq_refl). reflexivity.
Qed.

Lemma pickFrom_head candidates g :
  candidates <> [] ->
  exists q,
    fst (pickFrom candidates g) = Some q
    /\ q ∈ candidates
    /\ (Exists isApproved candidates -> isApproved q).
Proof.
  intros Hne. destruct (head_prioritized candidates g Hne) as (q & Hq & Hin & Happ).
  exists q. unfold pickFrom.
  destruct (prioritizeHumanApproved candidates g) as [prioritized g']. auto.
Qed.

Lemma elem_of_unseen_tier q questions d (history : list QuestionHistory) :
  q ∈ filterUnseenQuestions (filterByDifficulty questions d)
        (list_to_set (questionId <$> history))
  <-> q ∈ questions /\ difficulty q = d /\ id q ∉ (questionId <$> history).
Proof.
  unfold filterUnseenQuestions, filterByDifficulty.
  rewrite !list_elem_of_filter, elem_of_list_to_set. tauto.
Qed.

Lemma firstNonEmpty_head {A : Type} (s : list A) (rest : list (list A)) :
  s <> [] -> firstNonEmpty (s :: rest) = Some s.
Proof. destruct s; [congruence|reflexivity]. Qed.

Lemma chosenCandidates_unseen_target this target :
  filterUnseenQuestions (filterByDifficulty (quizQuestions this) target)
    (getGloballySeenQuestionIds this) <> [] ->
  chosenCandidates this target
  = Some (filterUnseenQuestions (filterByDifficulty (quizQuestions this) target)
            (getGloballySeenQuestionIds this)).
Proof.
  intros Hne. unfold chosenCandidates, candidateSets.
  rewrite firstNonEmpty_app.
  destruct target; cbn [getFallbackDifficulties map];
    rewrite (firstNonEmpty_head _ _ Hne); reflexivity.
Qed.

Lemma chosenCandidates_empty_pool this target :
  quizQuestions this = [] -> chosenCandidates this target = None.
Proof.
  intros Hq. unfold chosenCandidates, candidateSets. rewrite Hq.
  destruct target; reflexivity.
Qed.

Lemma getTargetDifficulty_unit_draws this g :
  unit_draws g -> unit_draws (snd (getTargetDifficulty this g)).
Proof.
  intros Hg. unfold getTargetDifficulty.
  destruct (90 <=? score this); [exact Hg|].
  destruct (50 <=? score this); [|exact Hg].
  apply (unit_draws_tail g Hg).
Qed.

Lemma sampleRand_unit_draws : unit_draws sampleRand.
Proof. intros n. split; reflexivity || discriminate. Qed.

(** C4. Exposure avoidance: for every engine in quiz phase and every
    outcome of the random source, when some quiz question of the targeted
    tier has an id that does not occur in the global history, the selector
    returns a question whose id does not occur in the global history; it
    is a quiz question of the targeted tier, and [getNextQuestion] hands it
    out when the score is below 100. *)
Theorem exposure_avoidance :
  forall (this : PowerPath100) (g : Rand),
    unit_draws g ->
    getCurrentPhase this = PowerPathState.quiz ->
    let target := fst (getTargetDifficulty this g) in
    (exists q0, q0 ∈ quizQuestions this
                /\ difficulty q0 = target
                /\ id q0 ∉ globalHistoryIds this) ->
    exists q,
      fst (selectQuizQuestion this g) = Some q
      /\ (id q ∉ globalHistoryIds this)
      /\ q ∈ quizQuestions this
      /\ difficulty q = target
      /\ (score this < 100 -> fst (fst (getNextQuestion this g)) = Some q).
Proof.
  intros this g Hg Hphase target (q0 & Hq0 & Hd0 & Hid0).
  set (unseen := filterUnseenQuestions
                   (filterByDifficulty (quizQuestions this) target)
                   (getGloballySeenQuestionIds this)).
  assert (Hin0 : q0 ∈ unseen).
  { apply elem_of_unseen_tier. auto. }
  assert (Hne : unseen <> []).
  { intros Hnil. rewrite Hnil in Hin0. inversion Hin0. }
  pose proof (selectQuizQuestion_chosen this g) as Hsel. cbv zeta in Hsel.
  fold target in Hsel.
  rewrite (chosenCandidates_unseen_target this target Hne) in Hsel.
  fold unseen in Hsel.
  destruct (pickFrom_head unseen (snd (getTargetDifficulty this g)) Hne)
    as (q & Hq & Hin & _).
  apply elem_of_unseen_tier in Hin as (Hpool & Hd & Hid).
  exists q. rewrite Hsel.
  repeat split; try assumption.
  intros Hscore. unfold getNextQuestion.
  destruct (Z.leb_spec 100 (score this)); [lia|].
  unfold getCurrentPhase in Hphase.
  destruct (currentGuidingIndex this <? length (guidingQuestions this))%nat;
    [discriminate|].
  rewrite Hsel.
  destruct (pickFrom unseen (snd (getTargetDifficulty this g))). exact Hq.
Qed.

Lemma exposure_avoidance_witness :
  exists q,
    fst (selectQuizQuestion (afterCorrectAnswers 1 None) sampleRand) = Some q
    /\ (id q ∉ globalHistoryIds (afterCorrectAnswers 1 None))
    /\ fst (fst (getNextQuestion (afterCorrectAnswers 1 None) sampleRand)) = Some q.
Proof.
  destruct (exposure_avoidance (afterCorrectAnswers 1 None) sampleRand
              sampleRand_unit_draws eq_refl) as (q & Hq & Hid & _ & _ & Hnext).
  - exists (sampleQuestion "e2" easy (Some true)).
    split; [right; left|]. split; [reflexivity|].
    vm_compute. intros H. inversion H; subst.
    match goal with H' : _ ∈ [] |- _ => inversion H' end.
  - exists q. split; [exact Hq|]. split; [exact Hid|].
    apply Hnext. vm_compute. reflexivity.
Defined.

(** C5. [getNextQuestion] returns nothing exactly when the engine is
    complete (score at least 100) or it is in quiz phase with an empty quiz
    pool.  It leaves the engine as it was; in guiding phase with a score
    below 100 it returns the guiding question at the cursor, which exists,
    and draws no random number. *)
Theorem getNextQuestion_none_iff :
  forall (this : PowerPath100) (g : Rand),
    unit_draws g ->
    let r := getNextQuestion this g in
    (fst (fst r) = None
     <-> 100 <= score this
         \/ (getCurrentPhase this = PowerPathState.quiz /\ quizQuestions this = []))
    /\ snd (fst r) = this
    /\ (score this < 100 ->
        getCurrentPhase this = PowerPathState.guiding ->
        r = (guidingQuestions this !! currentGuidingIndex this, this, g)
        /\ is_Some (guidingQuestions this !! currentGuidingIndex this)).
Proof.
  intros this g Hg r. subst r.
  unfold getNextQuestion, getCurrentPhase.
  destruct (Z.leb_spec 100 (score this)) as [Hdone|Hopen]; cbn [fst snd].
  { split; [split; auto|]. split; [reflexivity|]. lia. }
  destruct (Nat.ltb_spec (currentGuidingIndex this) (length (guidingQuestions this)))
    as [Hguiding|Hquiz]; cbn [fst snd].
  { destruct (lookup_lt_is_Some_2 _ _ Hguiding) as [q Hq].
    rewrite Hq. split.
    - split; [discriminate|]. intros [?|[? _]]; [lia|discriminate].
    - split; [reflexivity|]. intros _ _. split; [reflexivity|eauto]. }
  rewrite selectQuizQuestion_chosen. cbv zeta.
  destruct (chosenCandidates this (fst (getTargetDifficulty this g)))
    as [candidates|] eqn:Hchosen.
  - apply firstNonEmpty_Some in Hchosen as Hfound. destruct Hfound as [Hne _].
    destruct (pickFrom_head candidates (snd (getTargetDifficulty this g)) Hne)
      as (q & Hq & _).
    destruct (pickFrom candidates (snd (getTargetDifficulty this g))) as [picked g'].
    cbn [fst snd] in *. subst picked.
    split; [|split; [reflexivity|intros _ [=]]].
    split; [discriminate|].
    intros [?|[_ Hempty]]; [lia|].
    rewrite (chosenCandidates_empty_pool _ _ Hempty) in Hchosen. discriminate.
  - cbn [fst snd].
    split; [|split; [reflexivity|intros _ [=]]].
    split; [|reflexivity].
    intros _. right. split; [reflexivity|].
    apply (chosenCandidates_None _ _ Hchosen).
Qed.

Lemma getNextQuestion_none_iff_witness :
  fst (fst (getNextQuestion (afterCorrectAnswers 11 None) sampleRand)) = None
  /\ is_Some (fst (fst (getNextQuestion (afterCorrectAnswers 1 None) sampleRand)))
  /\ getNextQuestion sampleGuidedEngine sampleRand
     = (Some (sampleQuestion "g1" medium None), sampleGuidedEngine, sampleRand).
Proof.
  pose proof (getNextQuestion_none_iff (afterCorrectAnswers 11 None) sampleRand
                sampleRand_unit_draws) as Hdone.
  pose proof (getNextQuestion_none_iff (afterCorrectAnswers 1 None) sampleRand
                sampleRand_unit_draws) as Hopen.
  pose proof (getNextQuestion_none_iff sampleGuidedEngine sampleRand
                sampleRand_unit_draws) as Hguided.
  cbv zeta in Hdone, Hopen, Hguided.
  destruct Hdone as (Hdone & _). destruct Hopen as (Hopen & _).
  destruct Hguided as (_ & _ & Hguided).
  split; [|split].
  - apply Hdone. left. vm_compute. discriminate.
  - destruct (fst (fst (getNextQuestion (afterCorrectAnswers 1 None) sampleRand)))
      as [q|] eqn:Hq; [eauto|].
    destruct Hopen as [Hopen _].
    destruct (Hopen eq_refl) as [Hbad|[_ Hbad]].
    + vm_compute in Hbad. destruct (Hbad eq_refl).
    + vm_compute in Hbad. discriminate Hbad.
  - apply Hguided; reflexivity.
Defined.

(** C8. Approval ordering: whatever the random source yields, the question
    the selector returns is the first of the list made of the shuffled
    approved candidates followed by the shuffled other candidates, the
    candidates being the set the waterfall chose; each shuffle is a
    permutation of its partition and reads only inside its array.  So the
    returned question is approved whenever the chosen set holds an approved
    question.  When the waterfall chooses no set, the pool is empty and
    nothing is returned. *)
Theorem approval_ordering :
  forall (this : PowerPath100) (g : Rand),
    unit_draws g ->
    let target := fst (getTargetDifficulty this g) in
    let g1 := snd (getTargetDifficulty this g) in
    match chosenCandidates this target with
    | Some candidates =>
        let approved := shuffleArray (filter isApproved candidates) g1 in
        let others :=
          shuffleArray (filter (fun q => ~ isApproved q) candidates) (snd approved) in
        candidates <> []
        /\ fst approved ≡ₚ filter isApproved candidates
        /\ fst others ≡ₚ filter (fun q => ~ isApproved q) candidates
        /\ shuffle_from_checked (length (filter isApproved candidates) - 1)
             (filter isApproved candidates) g1 = Some approved
        /\ shuffle_from_checked
             (length (filter (fun q => ~ isApproved q) candidates) - 1)
             (filter (fun q => ~ isApproved q) candidates) (snd approved)
           = Some others
        /\ prioritizeHumanApproved candidates g1
           = (fst approved ++ fst others, snd others)
        /\ selectQuizQuestion this g
           = (head (fst approved ++ fst others), snd others)
        /\ (Exists isApproved candidates ->
            exists q,
              fst (selectQuizQuestion this g) = Some q
              /\ isApproved q
              /\ q ∈ candidates)
    | None =>
        quizQuestions this = [] /\ selectQuizQuestion this g = (None, g1)
    end.
Proof.
  intros this g Hg target g1.
  pose proof (selectQuizQuestion_chosen this g) as Hsel. cbv zeta in Hsel.
  fold target g1 in Hsel.
  destruct (chosenCandidates this target) as [candidates|] eqn:Hchosen.
  - cbv zeta.
    apply firstNonEmpty_Some in Hchosen as [Hne _].
    destruct (prioritizeHumanApproved_parts candidates g1) as (Hparts & Ha & Ho).
    cbv zeta in Hparts, Ha, Ho.
    assert (Hg1 : unit_draws g1) by apply (getTargetDifficulty_unit_draws _ _ Hg).
    split; [exact Hne|]. split; [exact Ha|]. split; [exact Ho|].
    split; [apply shuffleArray_checked, Hg1|].
    split; [apply shuffleArray_checked, shuffleArray_unit_draws, Hg1|].
    split; [exact Hparts|].
    split.
    + rewrite Hsel. unfold pickFrom. rewrite Hparts. reflexivity.
    + intros Hex.
      destruct (pickFrom_head candidates g1 Hne) as (q & Hq & Hin & Happ).
      exists q. rewrite Hsel. auto.
  - split; [|exact Hsel].
    apply (chosenCandidates_None _ _ Hchosen).
Qed.

Lemma approval_ordering_witness :
  exists q,
    fst (selectQuizQuestion (sampleEngine None) sampleRand) = Some q
    /\ isApproved q
    /\ q ∈ [sampleQuestion "e1" easy None; sampleQuestion "e2" easy (Some true)].
Proof.
  pose proof (approval_ordering (sampleEngine None) sampleRand
                sampleRand_unit_draws) as H.
  cbv zeta in H.
  assert (Hchosen :
            chosenCandidates (sampleEngine None)
              (fst (getTargetDifficulty (sampleEngine None) sampleRand))
            = Some [sampleQuestion "e1" easy None;
                    sampleQuestion "e2" easy (Some true)])
    by (vm_compute; reflexivity).
  rewrite Hchosen in H.
  destruct H as (_ & _ & _ & _ & _ & _ & _ & H).
  apply H. apply Exists_cons_tl, Exists_cons_hd. reflexivity.
Defined.

(** The sample pool through the selector: the approved easy question comes
    first although it is second in the pool; once both easy questions have
    been answered the waterfall moves on to the medium tier. *)
Example selectQuizQuestion_sample :
  id <$> fst (selectQuizQuestion (sampleEngine None) sampleRand) = Some "e2"
  /\ id <$> fst (selectQuizQuestion
                   (default (sampleEngine None)
                      (last (recordAnswers [("e1", false); ("e2", false)]
                               (sampleEngine None) sampleClock)))
                   sampleRand) = Some "m1".
Proof. split; vm_compute; reflexivity. Qed.

(** * Further properties of the engine *)

(** ** Counters and histories *)

Lemma new_PowerPath100_consistent guiding quizzes observer c :
  consistent (fst (new_PowerPath100 guiding quizzes observer c)).
Proof.
  unfold consistent; cbn.
  repeat split; try constructor; try lia. apply suffix_nil.
Qed.

Lemma recordAnswer_consistent questionId wasCorrect this c :
  consistent this ->
  consistent (engineAfter (recordAnswer questionId wasCorrect this c)).
Proof.
  intros (Hn & Hc & Hsuf & Hatt & Hcur & Hall & Hidx).
  pose proof (recordAnswer_counters questionId wasCorrect this c)
    as (Hn' & Hc' & Hidx' & Hatt' & _).
  pose proof (recordAnswer_history questionId wasCorrect this c) as (Hall' & Hcur').
  pose proof (recordAnswer_frame questionId wasCorrect this c) as (Hg' & _).
  cbv zeta in *. unfold consistent.
  rewrite Hn', Hc', Hidx', Hatt', Hall', Hcur', Hg'.
  rewrite filter_app, !length_app, !Forall_app. cbn [length].
  repeat split; try assumption.
  - lia.
  - rewrite filter_cons, filter_nil. cbn.
    destruct wasCorrect.
    + rewrite decide_True by reflexivity. cbn [length]. lia.
    + rewrite decide_False by discriminate. cbn [length]. lia.
  - apply suffix_app, Hsuf.
  - repeat constructor.
  - repeat constructor; cbn [attemptNumber]; lia.
  - unfold answersGuidingQuestion.
    destruct (Nat.ltb_spec (currentGuidingIndex this) (length (guidingQuestions this)));
      cbn [andb]; [|exact Hidx].
    destruct (bool_decide _); lia.
Qed.

Lemma resetAttempt_engine this c :
  engineAfter (resetAttempt this c)
  = mkEngine 0 0 0 (S (currentAttempt this)) (c 0%nat) (allQuestionHistory this) []
      (guidingQuestions this) (quizQuestions this) 0 (onStatsUpdate this).
Proof.
  destruct this as [s qa ca att st allh curh gq qq idx [observer|]];
    reflexivity.
Qed.

Lemma fullReset_engine this c :
  engineAfter (fullReset this c)
  = mkEngine 0 0 0 1 (c 0%nat) [] [] (guidingQuestions this) (quizQuestions this) 0
      (onStatsUpdate this).
Proof.
  destruct this as [s qa ca att st allh curh gq qq idx [observer|]];
    reflexivity.
Qed.

Lemma resetAttempt_consistent this c :
  consistent this -> consistent (engineAfter (resetAttempt this c)).
Proof.
  intros (Hn & Hc & Hsuf & Hatt & Hcur & Hall & Hidx).
  rewrite resetAttempt_engine. unfold consistent; cbn.
  repeat split; try constructor; try lia.
  - apply suffix_nil.
  - eapply Forall_impl; [exact Hall|]. cbn. intros h Hh. lia.
Qed.

Lemma fullReset_consistent this c : consistent (engineAfter (fullReset this c)).
Proof.
  rewrite fullReset_engine. unfold consistent; cbn.
  repeat split; try constructor; try lia. apply suffix_nil.
Qed.

Lemma reachable_consistent this : reachable this -> consistent this.
Proof.
  induction 1.
  - apply new_PowerPath100_consistent.
  - apply recordAnswer_consistent. assumption.
  - apply resetAttempt_consistent. assumption.
  - apply fullReset_consistent.
Qed.

(** X1. On every engine a program can hold, [questionsAnswered] is the
    length of the history of the current attempt and [correctAnswers] the
    number of its correct entries, so [correctAnswers] never exceeds
    [questionsAnswered]. *)
Theorem counters_count_attempt_history :
  forall this : PowerPath100,
    reachable this ->
    questionsAnswered this = length (currentAttemptHistory this)
    /\ correctAnswers this
       = length (filter (fun h => wasCorrect h = true) (currentAttemptHistory this))
    /\ (correctAnswers this <= questionsAnswered this)%nat.
Proof.
  intros this Hr.
  destruct (reachable_consistent this Hr) as (Hn & Hc & _).
  split; [exact Hn|]. split; [exact Hc|].
  rewrite Hn, Hc. apply length_filter.
Qed.

Lemma counters_count_attempt_history_witness :
  questionsAnswered
    (engineAfter (recordAnswer "e1" false (sampleEngine None) sampleClock)) = 1%nat
  /\ correctAnswers
       (engineAfter (recordAnswer "e1" false (sampleEngine None) sampleClock))
     = 0%nat.
Proof.
  destruct (counters_count_attempt_history
              (engineAfter (recordAnswer "e1" false (sampleEngine None) sampleClock)))
    as (Hn & Hc & _).
  - apply reachable_recordAnswer. apply reachable_new.
  - rewrite Hn, Hc. split; reflexivity.
Defined.

(** X2. On every engine a program can hold, the history of the current
    attempt is the end of the global history; so a question id seen in the
    current attempt is also seen globally. *)
Theorem attempt_history_ends_global_history :
  forall this : PowerPath100,
    reachable this ->
    currentAttemptHistory this `suffix_of` allQuestionHistory this
    /\ (forall i, i ∈ getCurrentAttemptSeenIds this ->
                  i ∈ getGloballySeenQuestionIds this).
Proof.
  intros this Hr.
  destruct (reachable_consistent this Hr) as (_ & _ & Hsuf & _).
  split; [exact Hsuf|].
  intros i. unfold getCurrentAttemptSeenIds, getGloballySeenQuestionIds.
  rewrite !elem_of_list_to_set.
  destruct Hsuf as [older Hall]. rewrite Hall, fmap_app, elem_of_app. auto.
Qed.

Lemma attempt_history_ends_global_history_witness :
  currentAttemptHistory
    (engineAfter (resetAttempt (afterCorrectAnswers 1 None) sampleClock))
  `suffix_of`
  allQuestionHistory
    (engineAfter (resetAttempt (afterCorrectAnswers 1 None) sampleClock)).
Proof.
  apply (attempt_history_ends_global_history
           (engineAfter (resetAttempt (afterCorrectAnswers 1 None) sampleClock))).
  apply reachable_resetAttempt.
  apply (reachable_recordAnswer _ "e1" true sampleClock (reachable_new _ _ _ _)).
Defined.

(** X3. On every engine a program can hold, the attempt number is at least
    1, every entry of the history of the current attempt carries it, and
    every entry of the global history carries an attempt number between 1
    and it. *)
Theorem history_entries_attempt_numbers :
  forall this : PowerPath100,
    reachable this ->
    (1 <= currentAttempt this)%nat
    /\ Forall (fun h => attemptNumber h = currentAttempt this)
         (currentAttemptHistory this)
    /\ Forall (fun h => (1 <= attemptNumber h <= currentAttempt this)%nat)
         (allQuestionHistory this).
Proof.
  intros this Hr.
  destruct (reachable_consistent this Hr) as (_ & _ & _ & Hatt & Hcur & Hall & _).
  auto.
Qed.

Lemma history_entries_attempt_numbers_witness :
  Forall (fun h => (1 <= attemptNumber h <= 2)%nat)
    (allQuestionHistory
       (engineAfter
          (recordAnswer "e2" true
             (engineAfter (resetAttempt (afterCorrectAnswers 1 None) sampleClock))
             sampleClock))).
Proof.
  apply (history_entries_attempt_numbers
           (engineAfter
              (recordAnswer "e2" true
                 (engineAfter (resetAttempt (afterCorrectAnswers 1 None) sampleClock))
                 sampleClock))).
  apply reachable_recordAnswer, reachable_resetAttempt.
  apply (reachable_recordAnswer _ "e1" true sampleClock (reachable_new _ _ _ _)).
Defined.

(** ** The guiding cursor *)

Lemma recordAnswer_cursor_step questionId wasCorrect this c :
  (currentGuidingIndex this
   <= currentGuidingIndex (engineAfter (recordAnswer questionId wasCorrect this c))
   <= S (currentGuidingIndex this))%nat
  /\ ((length (guidingQuestions this) <= currentGuidingIndex this)%nat ->
      currentGuidingIndex (engineAfter (recordAnswer questionId wasCorrect this c))
      = currentGuidingIndex this).
Proof.
  pose proof (recordAnswer_counters questionId wasCorrect this c)
    as (_ & _ & Hidx & _).
  cbv zeta in Hidx. rewrite Hidx. unfold answersGuidingQuestion.
  destruct (Nat.ltb_spec (currentGuidingIndex this) (length (guidingQuestions this)));
    cbn [andb].
  - destruct (bool_decide _); split; lia.
  - split; [lia|reflexivity].
Qed.

Lemma recordAnswer_keeps_quiz_phase questionId wasCorrect this c :
  getCurrentPhase this = PowerPathState.quiz ->
  getCurrentPhase (engineAfter (recordAnswer questionId wasCorrect this c))
  = PowerPathState.quiz.
Proof.
  unfold getCurrentPhase.
  pose proof (recordAnswer_cursor_step questionId wasCorrect this c) as [_ Hstay].
  pose proof (recordAnswer_frame questionId wasCorrect this c) as (Hg & _).
  cbv zeta in Hg. rewrite Hg.
  destruct (Nat.ltb_spec (currentGuidingIndex this) (length (guidingQuestions this)));
    [discriminate|].
  intros _. rewrite Hstay by assumption.
  destruct (Nat.ltb_spec (currentGuidingIndex this) (length (guidingQuestions this)));
    [lia|reflexivity].
Qed.

(** X4. The guiding cursor under [recordAnswer]: a call never moves it
    back and never by more than one, and once the engine is in quiz phase
    every later call of any sequence leaves the cursor where it is and the
    phase at quiz. *)
Theorem guiding_cursor_never_goes_back :
  forall (this : PowerPath100) (calls : list (string * bool)) (c : Clock),
    (forall questionId wasCorrect,
        (currentGuidingIndex this
         <= currentGuidingIndex
              (engineAfter (recordAnswer questionId wasCorrect this c))
         <= S (currentGuidingIndex this))%nat)
    /\ (getCurrentPhase this = PowerPathState.quiz ->
        Forall (fun after =>
                  getCurrentPhase after = PowerPathState.quiz
                  /\ currentGuidingIndex after = currentGuidingIndex this)
          (recordAnswers calls this c)).
Proof.
  intros this calls c. split.
  - intros. apply recordAnswer_cursor_step.
  - revert this c.
    induction calls as [|[questionId wasCorrect] rest IH]; intros this c Hquiz;
      cbn [recordAnswers]; constructor.
    + split; [apply recordAnswer_keeps_quiz_phase, Hquiz|].
      apply recordAnswer_cursor_step.
      unfold getCurrentPhase in Hquiz.
      destruct (Nat.ltb_spec (currentGuidingIndex this)
                  (length (guidingQuestions this))); [discriminate|assumption].
    + assert (Hsame :
                currentGuidingIndex
                  (engineAfter (recordAnswer questionId wasCorrect this c))
                = currentGuidingIndex this).
      { apply recordAnswer_cursor_step.
        unfold getCurrentPhase in Hquiz.
        destruct (Nat.ltb_spec (currentGuidingIndex this)
                    (length (guidingQuestions this))); [discriminate|assumption]. }
      rewrite <- Hsame. apply IH. apply recordAnswer_keeps_quiz_phase, Hquiz.
Qed.

Lemma guiding_cursor_never_goes_back_witness :
  Forall (fun after =>
            getCurrentPhase after = PowerPathState.quiz
            /\ currentGuidingIndex after = 1%nat)
    (recordAnswers [("g1", true); ("e1", false)]
       (engineAfter (recordAnswer "g1" true sampleGuidedEngine sampleClock))
       sampleClock).
Proof.
  apply (guiding_cursor_never_goes_back
           (engineAfter (recordAnswer "g1" true sampleGuidedEngine sampleClock))
           [("g1", true); ("e1", false)] sampleClock).
  reflexivity.
Defined.

(** X5. Guiding questions are handed out in pool order.  On an engine in
    guiding phase with a score below 100, [getNextQuestion] returns the
    guiding question at the cursor; [recordAnswer] with that question's id
    moves the cursor on by exactly one, whatever the correctness, and with
    any other id leaves the cursor, so that a guiding question is never
    skipped. *)
Theorem guiding_questions_in_order :
  forall (this : PowerPath100) (g : Rand) (c : Clock) (wasCorrect : bool),
    score this < 100 ->
    (currentGuidingIndex this < length (guidingQuestions this))%nat ->
    exists q,
      guidingQuestions this !! currentGuidingIndex this = Some q
      /\ getNextQuestion this g = (Some q, this, g)
      /\ currentGuidingIndex (engineAfter (recordAnswer (id q) wasCorrect this c))
         = S (currentGuidingIndex this)
      /\ (forall other,
             other <> id q ->
             currentGuidingIndex (engineAfter (recordAnswer other wasCorrect this c))
             = currentGuidingIndex this).
Proof.
  intros this g c wasCorrect Hscore Hidx.
  destruct (lookup_lt_is_Some_2 _ _ Hidx) as [q Hq].
  exists q. split; [exact Hq|]. split.
  - unfold getNextQuestion.
    destruct (Z.leb_spec 100 (score this)); [lia|].
    destruct (Nat.ltb_spec (currentGuidingIndex this) (length (guidingQuestions this)));
      [|lia].
    rewrite Hq. reflexivity.
  - split.
    + pose proof (recordAnswer_counters (id q) wasCorrect this c)
        as (_ & _ & Hstep & _).
      cbv zeta in Hstep. rewrite Hstep. unfold answersGuidingQuestion.
      rewrite Hq. cbn [fmap option_fmap option_map].
      destruct (Nat.ltb_spec (currentGuidingIndex this)
                  (length (guidingQuestions this))); [|lia].
      rewrite bool_decide_eq_true_2 by reflexivity. reflexivity.
    + intros other Hother.
      pose proof (recordAnswer_counters other wasCorrect this c)
        as (_ & _ & Hstep & _).
      cbv zeta in Hstep. rewrite Hstep. unfold answersGuidingQuestion.
      rewrite Hq. cbn [fmap option_fmap option_map].
      rewrite bool_decide_eq_false_2 by congruence.
      rewrite andb_false_r. reflexivity.
Qed.

Lemma guiding_questions_in_order_witness :
  exists q,
    guidingQuestions sampleGuidedEngine !! 0%nat = Some q
    /\ getNextQuestion sampleGuidedEngine sampleRand
       = (Some q, sampleGuidedEngine, sampleRand)
    /\ currentGuidingIndex
         (engineAfter (recordAnswer (id q) false sampleGuidedEngine sampleClock))
       = 1%nat
    /\ currentGuidingIndex
         (engineAfter (recordAnswer "e1" false sampleGuidedEngine sampleClock))
       = 0%nat.
Proof.
  destruct (guiding_questions_in_order sampleGuidedEngine sampleRand sampleClock false)
    as (q & Hq & Hnext & Hstep & Hother).
  - vm_compute. reflexivity.
  - vm_compute. lia.
  - exists q. split; [exact Hq|]. split; [exact Hnext|]. split; [exact Hstep|].
    apply Hother. vm_compute in Hq. inversion Hq. discriminate.
Defined.

(** ** More on the score model *)

Lemma calculateDecrement_brackets this :
  let s := score this in
  let d := calculateDecrement this in
  (90 <= s /\ d = -8) \/ (80 <= s < 90 /\ d = -7) \/ (70 <= s < 80 /\ d = -6)
  \/ (50 <= s < 70 /\ d = -5) \/ (40 <= s < 50 /\ d = -4)
  \/ (30 <= s < 40 /\ d = -3) \/ (20 <= s < 30 /\ d = -2) \/ (s < 20 /\ d = -1).
Proof.
  cbv zeta. unfold calculateDecrement.
  repeat match goal with
         | |- context [?a <=? score this] => destruct (Z.leb_spec a (score this))
         end; lia.
Qed.

(** X6. Every answer moves the score, except at the two ends.  On a score
    in 0..100: a correct answer below 100 raises it, by at least 4 unless
    the cap of 100 cuts the rise short, and by at most 14, and at 100
    leaves it; an incorrect answer above 0 lowers it, by at most 8, and at
    0 leaves it. *)
Theorem answers_move_the_score :
  forall (this : PowerPath100) (questionId : string) (c : Clock),
    0 <= score this <= 100 ->
    let s := score this in
    let up := score (engineAfter (recordAnswer questionId true this c)) in
    let down := score (engineAfter (recordAnswer questionId false this c)) in
    (s < 100 -> s < up <= s + 14 /\ (up = 100 \/ s + 4 <= up))
    /\ (s = 100 -> up = 100)
    /\ (0 < s -> s - 8 <= down < s)
    /\ (s = 0 -> down = 0).
Proof.
  intros this questionId c Hs s up down. subst s up down.
  rewrite (recordAnswer_score questionId true), (recordAnswer_score questionId false).
  pose proof (calculateDecrement_brackets this) as Hd. cbv zeta in Hd.
  unfold calculateIncrement.
  repeat split; intros; Z.div_mod_to_equations; lia.
Qed.

Lemma answers_move_the_score_witness :
  95 < score (engineAfter (recordAnswer "e1" true engineAt97 sampleClock)) <= 97 + 14
  /\ 97 - 8 <= score (engineAfter (recordAnswer "e1" false engineAt97 sampleClock))
     < 97
  /\ score (engineAfter (recordAnswer "e1" false (sampleEngine None) sampleClock)) = 0
  /\ score (engineAfter
              (recordAnswer "e1" true (afterCorrectAnswers 11 None) sampleClock))
     = 100.
Proof.
  assert (H97 : 0 <= score engineAt97 <= 100) by (vm_compute; split; discriminate).
  assert (H0 : 0 <= score (sampleEngine None) <= 100)
    by (vm_compute; split; discriminate).
  assert (H100 : 0 <= score (afterCorrectAnswers 11 None) <= 100)
    by (vm_compute; split; discriminate).
  pose proof (answers_move_the_score engineAt97 "e1" sampleClock H97) as Hmid.
  pose proof (answers_move_the_score (sampleEngine None) "e1" sampleClock H0) as Hlow.
  pose proof (answers_move_the_score (afterCorrectAnswers 11 None) "e1" sampleClock
                H100) as Htop.
  cbv zeta in Hmid, Hlow, Htop.
  destruct Hmid as (Hup & _ & Hdown & _).
  destruct Hlow as (_ & _ & _ & Hzero).
  destruct Htop as (_ & Hcap & _).
  assert (E97 : score engineAt97 = 97) by (vm_compute; reflexivity).
  rewrite E97 in Hup, Hdown.
  split; [destruct Hup as [Hup _]; [reflexivity|lia]|].
  split; [apply Hdown; reflexivity|].
  split; [apply Hzero; vm_compute; reflexivity|].
  apply Hcap. vm_compute. reflexivity.
Defined.

(** X7. The score model keeps order: of two engines, the one with the
    higher score before an answer of the same correctness does not have
    the lower score after it. *)
Theorem score_model_keeps_order :
  forall (this1 this2 : PowerPath100) (q1 q2 : string) (wasCorrect : bool)
         (c1 c2 : Clock),
    score this1 <= score this2 ->
    score (engineAfter (recordAnswer q1 wasCorrect this1 c1))
    <= score (engineAfter (recordAnswer q2 wasCorrect this2 c2)).
Proof.
  intros this1 this2 q1 q2 wasCorrect c1 c2 Hle.
  rewrite !recordAnswer_score.
  pose proof (calculateDecrement_brackets this1) as Hd1.
  pose proof (calculateDecrement_brackets this2) as Hd2.
  cbv zeta in Hd1, Hd2.
  destruct wasCorrect.
  - unfold calculateIncrement. Z.div_mod_to_equations. lia.
  - lia.
Qed.

Lemma score_model_keeps_order_witness :
  score (engineAfter (recordAnswer "e1" false (afterCorrectAnswers 9 None) sampleClock))
  <= score (engineAfter
              (recordAnswer "e2" false (afterCorrectAnswers 10 None) sampleClock)).
Proof.
  apply (score_model_keeps_order (afterCorrectAnswers 9 None)
           (afterCorrectAnswers 10 None) "e1" "e2" false sampleClock sampleClock).
  vm_compute. discriminate.
Defined.

Lemma scoreAfterCorrect_mono s t :
  s <= t -> scoreAfterCorrect s <= scoreAfterCorrect t.
Proof. unfold scoreAfterCorrect. intros. Z.div_mod_to_equations. lia. Qed.

Lemma recordAnswer_score_le_correct questionId wasCorrect this c :
  0 <= score this <= 100 ->
  score (engineAfter (recordAnswer questionId wasCorrect this c))
  <= scoreAfterCorrect (score this).
Proof.
  intros Hs. rewrite recordAnswer_score.
  pose proof (calculateDecrement_bounds this).
  unfold scoreAfterCorrect, calculateIncrement.
  destruct wasCorrect; Z.div_mod_to_equations; lia.
Qed.

Lemma recordAnswers_score_bound calls :
  forall this c b k after,
    0 <= score this <= 100 ->
    score this <= b ->
    recordAnswers calls this c !! k = Some after ->
    score after <= Nat.iter (S k) scoreAfterCorrect b.
Proof.
  induction calls as [|[questionId wasCorrect] rest IH];
    intros this c b k after Hs Hb Hk; cbn [recordAnswers] in Hk.
  - rewrite lookup_nil in Hk. discriminate.
  - destruct k as [|k]; cbn in Hk.
    + inversion Hk; subst after. cbn [Nat.iter nat_rect].
      etransitivity; [apply recordAnswer_score_le_correct, Hs|].
      apply scoreAfterCorrect_mono, Hb.
    + rewrite Nat.iter_succ_r.
      eapply IH; [| |exact Hk].
      * apply recordAnswer_keeps_range, Hs.
      * etransitivity; [apply recordAnswer_score_le_correct, Hs|].
        apply scoreAfterCorrect_mono, Hb.
Qed.

Lemma recordAnswers_length calls :
  forall this c, length (recordAnswers calls this c) = length calls.
Proof.
  induction calls as [|[questionId wasCorrect] rest IH]; intros; cbn;
    [reflexivity|].
  rewrite IH. reflexivity.
Qed.

Lemma recordAnswers_all_correct ids :
  forall this c k after,
    recordAnswers ((fun i => (i, true)) <$> ids) this c !! k = Some after ->
    score after = Nat.iter (S k) scoreAfterCorrect (score this).
Proof.
  induction ids as [|i rest IH]; intros this c k after Hk;
    cbn [fmap list_fmap recordAnswers] in Hk.
  - rewrite lookup_nil in Hk. discriminate.
  - destruct k as [|k].
    + inversion Hk; subst after. apply (recordAnswer_score i true).
    + change (recordAnswers ((fun i => (i, true)) <$> rest)
                (engineAfter (recordAnswer i true this c))
                (clockAfter (recordAnswer i true this c)) !! k = Some after) in Hk.
      rewrite Nat.iter_succ_r, (IH _ _ _ _ Hk), (recordAnswer_score i true).
      reflexivity.
Qed.

(** X8. Completion takes at least 11 answers.  From an engine at score 0,
    no sequence of fewer than 11 [recordAnswer] calls reaches 100 at any of
    its steps, whatever the ids and the correctness; 11 correct answers,
    whatever the ids, end at exactly 100. *)
Theorem completion_takes_eleven_answers :
  forall (this : PowerPath100) (calls : list (string * bool)) (ids : list string)
         (c : Clock),
    score this = 0 ->
    ((length calls < 11)%nat ->
     Forall (fun after => isComplete after = false) (recordAnswers calls this c))
    /\ (length ids = 11%nat ->
        score <$> last (recordAnswers ((fun i => (i, true)) <$> ids) this c)
        = Some 100).
Proof.
  intros this calls ids c Hs. split.
  - intros Hlen. apply Forall_lookup_2. intros k after Hk.
    assert (Hklen : (k < length (recordAnswers calls this c))%nat)
      by (eapply lookup_lt_Some; exact Hk).
    rewrite recordAnswers_length in Hklen.
    pose proof (recordAnswers_score_bound calls this c 0 k after
                  ltac:(lia) ltac:(lia) Hk) as Hbound.
    unfold isComplete. apply Z.leb_gt.
    eapply Z.le_lt_trans; [exact Hbound|].
    do 10 (destruct k as [|k]; [vm_compute; reflexivity|]). lia.
  - intros Hlen.
    rewrite last_lookup, recordAnswers_length, length_fmap, Hlen.
    destruct (recordAnswers ((fun i => (i, true)) <$> ids) this c !! Nat.pred 11)
      as [after|] eqn:Hafter.
    + cbn [fmap option_fmap option_map].
      rewrite (recordAnswers_all_correct ids this c _ after Hafter), Hs.
      vm_compute. reflexivity.
    + apply lookup_ge_None in Hafter.
      rewrite recordAnswers_length, length_fmap, Hlen in Hafter. cbn in Hafter. lia.
Qed.

Lemma completion_takes_eleven_answers_witness :
  Forall (fun after => isComplete after = false)
    (recordAnswers (replicate 10 ("e1", true)) (sampleEngine None) sampleClock)
  /\ score <$> last (recordAnswers
                       ((fun i => (i, true)) <$> replicate 11 "e1")
                       (sampleEngine None) sampleClock) = Some 100.
Proof.
  destruct (completion_takes_eleven_answers (sampleEngine None)
              (replicate 10 ("e1", true)) (replicate 11 "e1") sampleClock eq_refl)
    as [Hfew Heleven].
  split; [apply Hfew; vm_compute; lia|apply Heleven; reflexivity].
Defined.

(** ** More on the difficulty policy *)

(** X9. The targeted tier never gets easier as the score grows: for the
    same random draw, the engine with the higher score is targeted at the
    same or a harder tier.  A draw is consumed only for a score in 50..89,
    and then exactly one; such a score is never targeted at easy. *)
Theorem target_tier_grows_with_score :
  forall (this1 this2 : PowerPath100) (g : Rand),
    score this1 <= score this2 ->
    (tierRank (fst (getTargetDifficulty this1 g))
     <= tierRank (fst (getTargetDifficulty this2 g)))%nat
    /\ (50 <= score this1 < 90 ->
        fst (getTargetDifficulty this1 g) <> easy
        /\ snd (getTargetDifficulty this1 g) = snd (Math_random g))
    /\ (score this1 < 50 \/ 90 <= score this1 ->
        snd (getTargetDifficulty this1 g) = g).
Proof.
  intros this1 this2 g Hle. unfold getTargetDifficulty, Math_random.
  destruct (Z.leb_spec 90 (score this1)), (Z.leb_spec 50 (score this1)),
    (Z.leb_spec 90 (score this2)), (Z.leb_spec 50 (score this2));
    try lia; cbn [fst snd];
    destruct (Qlt_le_dec (g 0%nat) (75 # 100)); cbn [tierRank];
    (split; [lia|]); split; intros; try lia; try reflexivity;
    split; try reflexivity; discriminate.
Qed.

Lemma target_tier_grows_with_score_witness :
  (tierRank (fst (getTargetDifficulty (afterCorrectAnswers 4 None) sampleRand))
   <= tierRank (fst (getTargetDifficulty (afterCorrectAnswers 10 None) sampleRand)))%nat
  /\ fst (getTargetDifficulty (afterCorrectAnswers 4 None) sampleRand) <> easy
  /\ snd (getTargetDifficulty (sampleEngine None) sampleRand) = sampleRand.
Proof.
  assert (Hle : score (afterCorrectAnswers 4 None) <= score (afterCorrectAnswers 10 None))
    by (vm_compute; discriminate).
  assert (Hle0 : score (sampleEngine None) <= score (sampleEngine None))
    by (vm_compute; discriminate).
  pose proof (target_tier_grows_with_score (afterCorrectAnswers 4 None)
                (afterCorrectAnswers 10 None) sampleRand Hle) as (Hrank & Hmid & _).
  pose proof (target_tier_grows_with_score (sampleEngine None) (sampleEngine None)
                sampleRand Hle0) as (_ & _ & Hlow).
  split; [exact Hrank|]. split.
  - apply Hmid. vm_compute. split; [discriminate|reflexivity].
  - apply Hlow. left. vm_compute. reflexivity.
Defined.

(** X10. The fallback order of a tier tries every tier exactly once,
    the tier itself first. *)
Theorem fallback_order_is_a_permutation :
  forall primary : Difficulty,
    getFallbackDifficulties primary ≡ₚ [easy; medium; hard]
    /\ NoDup (getFallbackDifficulties primary)
    /\ head (getFallbackDifficulties primary) = Some primary.
Proof.
  intros primary.
  assert (Hperm : getFallbackDifficulties primary ≡ₚ [easy; medium; hard]).
  { destruct primary; cbn.
    - reflexivity.
    - symmetry. apply (Permutation_cons_append [medium; hard] easy).
    - exact (reverse_Permutation [easy; medium; hard]). }
  split; [exact Hperm|]. split.
  - destruct primary; apply (bool_decide_unpack _); vm_compute; exact I.
  - destruct primary; reflexivity.
Qed.

(** ** The normaliser and the conversion *)

Lemma parseDifficulty_Difficulty_string d :
  parseDifficulty (Some (Difficulty_string d)) = d.
Proof. destruct d; reflexivity. Qed.

Lemma lower_ascii_idempotent a : lower_ascii (lower_ascii a) = lower_ascii a.
Proof. destruct a as [[] [] [] [] [] [] [] []]; reflexivity. Qed.

Lemma toLowerCase_idempotent s : toLowerCase (toLowerCase s) = toLowerCase s.
Proof.
  induction s as [|a s IH]; cbn; [reflexivity|].
  rewrite lower_ascii_idempotent, IH. reflexivity.
Qed.

Lemma toLowerCase_empty s : toLowerCase s = EmptyString -> s = EmptyString.
Proof. destruct s; [reflexivity|discriminate]. Qed.

(** [parseDifficulty] on a descriptor that is not empty, by its lower-case
    form. *)
Lemma parseDifficulty_lower a s :
  parseDifficulty (Some (String a s))
  = let lower := toLowerCase (String a s) in
    if bool_decide (lower = "easy" \/ lower = "low") then easy
    else if bool_decide (lower = "hard" \/ lower = "high" \/ lower = "difficult")
    then hard
    else medium.
Proof. reflexivity. Qed.

(** X11. [parseDifficulty] does not look at the case of the letters A..Z:
    two descriptors with the same lower-case form get the same tier, and a
    descriptor gets the tier of its lower-case form.  The three tier names
    come back as themselves. *)
Theorem parseDifficulty_ignores_case :
  forall s1 s2 : string,
    toLowerCase s1 = toLowerCase s2 ->
    parseDifficulty (Some s1) = parseDifficulty (Some s2)
    /\ parseDifficulty (Some (toLowerCase s1)) = parseDifficulty (Some s1)
    /\ (forall d, parseDifficulty (Some (Difficulty_string d)) = d).
Proof.
  assert (Hsame : forall s1 s2, toLowerCase s1 = toLowerCase s2 ->
                                parseDifficulty (Some s1) = parseDifficulty (Some s2)).
  { intros s1 s2 Hlow.
    destruct s1 as [|a1 s1], s2 as [|a2 s2]; try reflexivity; try discriminate.
    rewrite !parseDifficulty_lower. cbv zeta. rewrite Hlow. reflexivity. }
  intros s1 s2 Hlow. split; [apply Hsame, Hlow|]. split.
  - apply Hsame, toLowerCase_idempotent.
  - apply parseDifficulty_Difficulty_string.
Qed.

Lemma parseDifficulty_ignores_case_witness :
  parseDifficulty (Some "DiFFicult") = parseDifficulty (Some "difficult")
  /\ parseDifficulty (Some "difficult") = hard.
Proof.
  destruct (parseDifficulty_ignores_case "DiFFicult" "difficult" eq_refl)
    as (Hsame & _ & _).
  split; [exact Hsame|reflexivity].
Defined.

Lemma normalized_descriptor q :
  parseDifficulty
    (difficulty_descriptor
       (mkQuestion (id q) (prompt q) (choices q)
          (parseDifficulty (difficulty_descriptor q)) (humanApproved q) (metadata q)))
  = parseDifficulty (difficulty_descriptor q).
Proof.
  unfold difficulty_descriptor. cbn [metadata difficulty].
  destruct (metadata q) as [m|].
  - destruct (Metadata.difficulty m) as [[|a d]|];
      rewrite ?parseDifficulty_Difficulty_string; reflexivity.
  - rewrite !parseDifficulty_Difficulty_string. reflexivity.
Qed.

(** X12. Normalising the quiz pool changes nothing but the tier: ids,
    prompts, choices, approval flags and metadata stay, question by
    question and in order; a question without metadata keeps its tier; and
    normalising a normalised pool changes nothing. *)
Theorem normalizeQuizQuestions_idempotent :
  forall questions : list PowerPathQuestion,
    normalizeQuizQuestions (normalizeQuizQuestions questions)
    = normalizeQuizQuestions questions
    /\ Forall2 (fun q q' =>
                  id q' = id q /\ prompt q' = prompt q /\ choices q' = choices q
                  /\ humanApproved q' = humanApproved q
                  /\ metadata q' = metadata q
                  /\ (metadata q = None -> difficulty q' = difficulty q))
         questions (normalizeQuizQuestions questions).
Proof.
  intros questions. split.
  - unfold normalizeQuizQuestions. rewrite map_map.
    apply map_ext. intros q. cbn [id prompt choices humanApproved metadata].
    rewrite normalized_descriptor. reflexivity.
  - induction questions as [|q rest IH]; cbn; constructor; [|exact IH].
    repeat split.
    intros Hmeta. unfold difficulty_descriptor. rewrite Hmeta.
    apply parseDifficulty_Difficulty_string.
Qed.

Lemma convertToPowerPathQuestion_descriptor question :
  parseDifficulty (difficulty_descriptor (convertToPowerPathQuestion question))
  = difficulty (convertToPowerPathQuestion question).
Proof.
  unfold difficulty_descriptor, convertToPowerPathQuestion.
  cbn [metadata difficulty].
  destruct (QuizQuestion.metadata question) as [m|]; cbn; [|reflexivity].
  destruct (SectionMetadata.difficulty m) as [[|a d]|]; cbn; reflexivity.
Qed.

(** X13. The two classifiers agree.  A question converted by
    [convertToPowerPathQuestion] already has the tier the constructor's
    normalisation gives it, so that a converted pool goes into the engine
    as it is. *)
Theorem converted_pool_is_normalized :
  forall (questions : list QuizQuestion.t) (guiding : list PowerPathQuestion)
         (observer : option Observer) (c : Clock),
    normalizeQuizQuestions (convertQuestionsToPowerPath questions)
    = convertQuestionsToPowerPath questions
    /\ quizQuestions
         (fst (new_PowerPath100 guiding (convertQuestionsToPowerPath questions)
                 observer c))
       = convertQuestionsToPowerPath questions.
Proof.
  intros questions guiding observer c.
  assert (Hnorm : normalizeQuizQuestions (convertQuestionsToPowerPath questions)
                  = convertQuestionsToPowerPath questions).
  { unfold normalizeQuizQuestions, convertQuestionsToPowerPath.
    rewrite map_map. apply map_ext. intros question.
    rewrite convertToPowerPathQuestion_descriptor.
    destruct (convertToPowerPathQuestion question). reflexivity. }
  split; [exact Hnorm|]. cbn. exact Hnorm.
Qed.

(** The conversion on descriptors in upper case, absent and unknown. *)
Example convertToPowerPathQuestion_sample :
  difficulty <$> convertQuestionsToPowerPath
                   [sampleQuizQuestion "a" (Some "LOW") None;
                    sampleQuizQuestion "b" None (Some true);
                    sampleQuizQuestion "c" (Some "tricky") None;
                    sampleQuizQuestion "d" (Some "High") None]
  = [easy; medium; medium; hard].
Proof. reflexivity. Qed.

(** ** More on the selection *)




Lemma firstNonEmpty_all_empty {A : Type} (sets : list (list A)) :
  (forall s, s ∈ sets -> s = []) -> firstNonEmpty sets = None.
Proof.
  intros Hall. destruct (firstNonEmpty sets) as [s|] eqn:Hs; [|reflexivity].
  apply firstNonEmpty_Some in Hs as [Hne Hin]. destruct (Hne (Hall s Hin)).
Qed.

Lemma firstNonEmpty_exists {A : Type} (sets : list (list A)) :
  (exists s, s ∈ sets /\ s <> []) ->
  exists s, firstNonEmpty sets = Some s /\ s ∈ sets /\ s <> [].
Proof.
  intros (s0 & Hin0 & Hne0).
  destruct (firstNonEmpty sets) as [s|] eqn:Hs.
  - apply firstNonEmpty_Some in Hs as [Hne Hin]. eauto.
  - destruct (Hne0 (firstNonEmpty_None sets Hs s0 Hin0)).
Qed.

Lemma elem_of_tier q questions d :
  q ∈ filterByDifficulty questions d <-> q ∈ questions /\ difficulty q = d.
Proof. unfold filterByDifficulty. rewrite list_elem_of_filter. tauto. Qed.

(** Every candidate set of the waterfall is drawn from the quiz pool. *)
Lemma candidateSets_in_pool this order s q :
  s ∈ candidateSets this order -> q ∈ s -> q ∈ quizQuestions this.
Proof.
  unfold candidateSets. rewrite !elem_of_app, !list_elem_of_fmap.
  intros [(d & -> & _)|[(d & -> & _)|(d & -> & _)]] Hq.
  - apply elem_of_unseen_tier in Hq. tauto.
  - apply elem_of_unseen_tier in Hq. tauto.
  - apply elem_of_tier in Hq. tauto.
Qed.

(** The question picked from a chosen candidate set. *)
Lemma selectQuizQuestion_from_chosen this g candidates :
  chosenCandidates this (fst (getTargetDifficulty this g)) = Some candidates ->
  exists q, fst (selectQuizQuestion this g) = Some q /\ q ∈ candidates.
Proof.
  intros Hchosen. rewrite selectQuizQuestion_chosen. cbv zeta. rewrite Hchosen.
  apply firstNonEmpty_Some in Hchosen as [Hne _].
  destruct (pickFrom_head candidates (snd (getTargetDifficulty this g)) Hne)
    as (q & Hq & Hin & _).
  eauto.
Qed.

(** X15. Unseen before seen, whatever the tier.  When some quiz question
    of any tier has never been answered, the selector returns a question
    that has never been answered.  When all have been answered but some
    not in the current attempt, it returns one not answered in the current
    attempt.  When all have been answered in the current attempt and the
    targeted tier has a question, it repeats a question of the targeted
    tier. *)
Theorem selector_prefers_unseen :
  forall (this : PowerPath100) (g : Rand),
    unit_draws g ->
    ((exists q0, q0 ∈ quizQuestions this /\ id q0 ∉ globalHistoryIds this) ->
     exists q,
       fst (selectQuizQuestion this g) = Some q
       /\ q ∈ quizQuestions this /\ id q ∉ globalHistoryIds this)
    /\ ((forall q0, q0 ∈ quizQuestions this -> id q0 ∈ globalHistoryIds this) ->
        (exists q0, q0 ∈ quizQuestions this /\ id q0 ∉ attemptHistoryIds this) ->
        exists q,
          fst (selectQuizQuestion this g) = Some q
          /\ q ∈ quizQuestions this /\ id q ∉ attemptHistoryIds this)
    /\ ((forall q0, q0 ∈ quizQuestions this ->
                    id q0 ∈ globalHistoryIds this /\ id q0 ∈ attemptHistoryIds this) ->
        (exists q0, q0 ∈ quizQuestions this
                    /\ difficulty q0 = fst (getTargetDifficulty this g)) ->
        exists q,
          fst (selectQuizQuestion this g) = Some q
          /\ q ∈ quizQuestions this
          /\ difficulty q = fst (getTargetDifficulty this g)).
Proof.
  intros this g Hg.
  set (target := fst (getTargetDifficulty this g)).
  set (order := getFallbackDifficulties target).
  set (globalSets :=
         map (fun d => filterUnseenQuestions (filterByDifficulty (quizQuestions this) d)
                         (getGloballySeenQuestionIds this)) order).
  set (attemptSets :=
         map (fun d => filterUnseenQuestions (filterByDifficulty (quizQuestions this) d)
                         (getCurrentAttemptSeenIds this)) order).
  set (tierSets := map (fun d => filterByDifficulty (quizQuestions this) d) order).
  assert (Hchosen : chosenCandidates this target
                    = firstNonEmpty (globalSets ++ attemptSets ++ tierSets))
    by reflexivity.
  rewrite !firstNonEmpty_app in Hchosen.
  assert (Hglobal_empty :
            (forall q0, q0 ∈ quizQuestions this -> id q0 ∈ globalHistoryIds this) ->
            firstNonEmpty globalSets = None).
  { intros Hseen. apply firstNonEmpty_all_empty. intros s Hs.
    apply list_elem_of_fmap in Hs as (d & -> & _).
    destruct (filterUnseenQuestions _ _) as [|q rest] eqn:Hset; [reflexivity|].
    assert (Hq : q ∈ q :: rest) by left. rewrite <- Hset in Hq.
    apply elem_of_unseen_tier in Hq as (Hpool & _ & Hid).
    destruct (Hid (Hseen q Hpool)). }
  assert (Hattempt_empty :
            (forall q0, q0 ∈ quizQuestions this -> id q0 ∈ attemptHistoryIds this) ->
            firstNonEmpty attemptSets = None).
  { intros Hseen. apply firstNonEmpty_all_empty. intros s Hs.
    apply list_elem_of_fmap in Hs as (d & -> & _).
    destruct (filterUnseenQuestions _ _) as [|q rest] eqn:Hset; [reflexivity|].
    assert (Hq : q ∈ q :: rest) by left. rewrite <- Hset in Hq.
    apply elem_of_unseen_tier in Hq as (Hpool & _ & Hid).
    destruct (Hid (Hseen q Hpool)). }
  split; [|split].
  - intros (q0 & Hpool0 & Hid0).
    destruct (firstNonEmpty_exists globalSets) as (s & Hs & Hin & _).
    { exists (filterUnseenQuestions
                (filterByDifficulty (quizQuestions this) (difficulty q0))
                (getGloballySeenQuestionIds this)).
      split.
      - apply (list_elem_of_fmap_2
                 (fun d => filterUnseenQuestions
                             (filterByDifficulty (quizQuestions this) d)
                             (getGloballySeenQuestionIds this))).
        apply fallback_covers_all_tiers.
      - intros Hnil.
        assert (Hq0 : q0 ∈ filterUnseenQuestions
                        (filterByDifficulty (quizQuestions this) (difficulty q0))
                        (getGloballySeenQuestionIds this))
          by (apply elem_of_unseen_tier; auto).
        rewrite Hnil in Hq0. inversion Hq0. }
    rewrite Hs in Hchosen.
    destruct (selectQuizQuestion_from_chosen this g s Hchosen) as (q & Hsel & Hq).
    apply list_elem_of_fmap in Hin as (d & -> & _).
    apply elem_of_unseen_tier in Hq as (Hpool & _ & Hid).
    exists q. auto.
  - intros Hseen (q0 & Hpool0 & Hid0).
    rewrite (Hglobal_empty Hseen) in Hchosen.
    destruct (firstNonEmpty_exists attemptSets) as (s & Hs & Hin & _).
    { exists (filterUnseenQuestions
                (filterByDifficulty (quizQuestions this) (difficulty q0))
                (getCurrentAttemptSeenIds this)).
      split.
      - apply (list_elem_of_fmap_2
                 (fun d => filterUnseenQuestions
                             (filterByDifficulty (quizQuestions this) d)
                             (getCurrentAttemptSeenIds this))).
        apply fallback_covers_all_tiers.
      - intros Hnil.
        assert (Hq0 : q0 ∈ filterUnseenQuestions
                        (filterByDifficulty (quizQuestions this) (difficulty q0))
                        (getCurrentAttemptSeenIds this))
          by (apply elem_of_unseen_tier; auto).
        rewrite Hnil in Hq0. inversion Hq0. }
    rewrite Hs in Hchosen.
    destruct (selectQuizQuestion_from_chosen this g s Hchosen) as (q & Hsel & Hq).
    apply list_elem_of_fmap in Hin as (d & -> & _).
    apply elem_of_unseen_tier in Hq as (Hpool & _ & Hid).
    exists q. auto.
  - intros Hseen (q0 & Hpool0 & Hd0).
    rewrite (Hglobal_empty (fun q Hq => proj1 (Hseen q Hq))) in Hchosen.
    rewrite (Hattempt_empty (fun q Hq => proj2 (Hseen q Hq))) in Hchosen.
    assert (Hne : filterByDifficulty (quizQuestions this) target <> []).
    { intros Hnil.
      assert (Hq0 : q0 ∈ filterByDifficulty (quizQuestions this) target)
        by (apply elem_of_tier; auto).
      rewrite Hnil in Hq0. inversion Hq0. }
    assert (Hfirst : firstNonEmpty tierSets
                     = Some (filterByDifficulty (quizQuestions this) target)).
    { subst tierSets order. destruct target; cbn [getFallbackDifficulties map];
        apply firstNonEmpty_head, Hne. }
    rewrite Hfirst in Hchosen.
    destruct (selectQuizQuestion_from_chosen this g _ Hchosen) as (q & Hsel & Hq).
    apply elem_of_tier in Hq as (Hpool & Hd).
    exists q. auto.
Qed.

Lemma selector_prefers_unseen_witness :
  (exists q,
      fst (selectQuizQuestion (sampleEngine None) sampleRand) = Some q
      /\ q ∈ quizQuestions (sampleEngine None)
      /\ id q ∉ globalHistoryIds (sampleEngine None))
  /\ (exists q,
         fst (selectQuizQuestion engineSecondAttempt sampleRand) = Some q
         /\ q ∈ quizQuestions engineSecondAttempt
         /\ id q ∉ attemptHistoryIds engineSecondAttempt)
  /\ (exists q,
         fst (selectQuizQuestion engineAllSeen sampleRand) = Some q
         /\ q ∈ quizQuestions engineAllSeen
         /\ difficulty q = easy).
Proof.
  destruct (selector_prefers_unseen (sampleEngine None) sampleRand
              sampleRand_unit_draws) as (Hfresh & _ & _).
  destruct (selector_prefers_unseen engineSecondAttempt sampleRand
              sampleRand_unit_draws) as (_ & Hsecond & _).
  destruct (selector_prefers_unseen engineAllSeen sampleRand
              sampleRand_unit_draws) as (_ & _ & Hrepeat).
  split; [|split].
  - apply Hfresh. exists (sampleQuestion "e1" easy None).
    split; [left|]. intros H. inversion H.
  - apply Hsecond.
    + apply Forall_forall. apply (bool_decide_unpack _). vm_compute. exact I.
    + exists (sampleQuestion "e1" easy None).
      split; [left|]. intros H. inversion H.
  - apply Hrepeat.
    + intros q0 Hq0. split; revert q0 Hq0; apply Forall_forall;
        apply (bool_decide_unpack _); vm_compute; exact I.
    + exists (sampleQuestion "e1" easy None). split; [left|reflexivity].
Defined.

(** X16. What [getNextQuestion] hands out.  A question it returns comes
    from the engine's pools and the score is below 100: in guiding phase it
    is the guiding question at the cursor, in quiz phase a question of the
    quiz pool.  It never hands out a quiz question while a guiding question
    is left, and never anything once the score is 100. *)
Theorem getNextQuestion_from_the_pools :
  forall (this : PowerPath100) (g : Rand) (q : PowerPathQuestion),
    unit_draws g ->
    fst (fst (getNextQuestion this g)) = Some q ->
    score this < 100
    /\ ((getCurrentPhase this = PowerPathState.guiding
         /\ guidingQuestions this !! currentGuidingIndex this = Some q)
        \/ (getCurrentPhase this = PowerPathState.quiz
            /\ q ∈ quizQuestions this
            /\ fst (selectQuizQuestion this g) = Some q)).
Proof.
  intros this g q Hg. unfold getNextQuestion, getCurrentPhase.
  destruct (Z.leb_spec 100 (score this)); cbn [fst]; [discriminate|].
  destruct (Nat.ltb_spec (currentGuidingIndex this) (length (guidingQuestions this)));
    cbn [fst].
  - intros Hq. split; [assumption|]. left. auto.
  - destruct (selectQuizQuestion this g) as [picked g'] eqn:Hsel. cbn [fst].
    intros ->. split; [assumption|]. right.
    split; [reflexivity|]. split; [|reflexivity].
    pose proof (selectQuizQuestion_chosen this g) as Hchosen. cbv zeta in Hchosen.
    rewrite Hsel in Hchosen.
    destruct (chosenCandidates this (fst (getTargetDifficulty this g)))
      as [candidates|] eqn:Hc; [|discriminate].
    destruct (selectQuizQuestion_from_chosen this g candidates Hc) as (q' & Hq' & Hin).
    rewrite Hsel in Hq'. cbn [fst] in Hq'. inversion Hq'; subst q'.
    apply firstNonEmpty_Some in Hc as [_ Hset].
    eapply candidateSets_in_pool; eassumption.
Qed.

Lemma getNextQuestion_from_the_pools_witness :
  score (afterCorrectAnswers 1 None) < 100
  /\ sampleQuestion "e2" easy (Some true) ∈ quizQuestions (afterCorrectAnswers 1 None).
Proof.
  destruct (getNextQuestion_from_the_pools (afterCorrectAnswers 1 None) sampleRand
              (sampleQuestion "e2" easy (Some true)) sampleRand_unit_draws)
    as (Hscore & [[Hguiding _]|(_ & Hpool & _)]).
  - vm_compute. reflexivity.
  - vm_compute in Hguiding. discriminate Hguiding.
  - split; assumption.
Defined.

(** ** Pools, counts and resets *)

Lemma reachableFrom_frame init this :
  reachableFrom init this ->
  guidingQuestions this = guidingQuestions init
  /\ quizQuestions this = quizQuestions init
  /\ onStatsUpdate this = onStatsUpdate init.
Proof.
  induction 1 as [|this questionId wasCorrect c _ IH|this c _ IH|this c _ IH].
  - auto.
  - pose proof (recordAnswer_frame questionId wasCorrect this c) as (Hg & Hq & Ho).
    cbv zeta in Hg, Hq, Ho. rewrite Hg, Hq, Ho. exact IH.
  - rewrite resetAttempt_engine. exact IH.
  - rewrite fullReset_engine. exact IH.
Qed.

Lemma tier_counts (questions : list PowerPathQuestion) :
  (length (filter (fun q => difficulty q = easy) questions)
   + length (filter (fun q => difficulty q = medium) questions)
   + length (filter (fun q => difficulty q = hard) questions))%nat
  = length questions.
Proof.
  induction questions as [|q rest IH]; [reflexivity|].
  rewrite !filter_cons.
  destruct (difficulty q);
    repeat match goal with
           | |- context [decide (?a = ?a)] => rewrite (decide_True (P := a = a)) by reflexivity
           | |- context [decide (?a = ?b)] => rewrite (decide_False (P := a = b)) by discriminate
           end;
    cbn [length]; lia.
Qed.

(** X17. [getQuestionCounts]: the three tier counts add up to the total,
    and no operation changes them, since no operation touches the pools
    or the observer. *)
Theorem question_counts_add_up :
  forall init this : PowerPath100,
    reachableFrom init this ->
    (QuestionCounts.easy (getQuestionCounts this)
     + QuestionCounts.medium (getQuestionCounts this)
     + QuestionCounts.hard (getQuestionCounts this))%nat
    = QuestionCounts.total (getQuestionCounts this)
    /\ getQuestionCounts this = getQuestionCounts init
    /\ guidingQuestions this = guidingQuestions init
    /\ quizQuestions this = quizQuestions init
    /\ onStatsUpdate this = onStatsUpdate init.
Proof.
  intros init this Hr.
  destruct (reachableFrom_frame init this Hr) as (Hg & Hq & Ho).
  split; [apply tier_counts|].
  split; [unfold getQuestionCounts; rewrite Hq; reflexivity|auto].
Qed.

Lemma question_counts_add_up_witness :
  getQuestionCounts
    (engineAfter (recordAnswer "e1" true (sampleEngine None) sampleClock))
  = QuestionCounts.mk 2 1 1 4.
Proof.
  destruct (question_counts_add_up (sampleEngine None)
              (engineAfter (recordAnswer "e1" true (sampleEngine None) sampleClock)))
    as (_ & Hsame & _).
  - apply reachableFrom_recordAnswer, reachableFrom_here.
  - rewrite Hsame. reflexivity.
Defined.

(** X18. [fullReset] takes the engine back to where the constructor left
    it: after any operations on the engine made of given pools and
    observer, [fullReset] leaves exactly the constructor's engine, with the
    start time read anew. *)
Theorem fullReset_restores_the_new_engine :
  forall (guiding quizzes : list PowerPathQuestion) (observer : option Observer)
         (c0 c : Clock) (this : PowerPath100),
    reachableFrom (fst (new_PowerPath100 guiding quizzes observer c0)) this ->
    engineAfter (fullReset this c)
    = set_startTime (fst (Date_now c))
        (fst (new_PowerPath100 guiding quizzes observer c0)).
Proof.
  intros guiding quizzes observer c0 c this Hr.
  destruct (reachableFrom_frame _ _ Hr) as (Hg & Hq & Ho).
  rewrite fullReset_engine, Hg, Hq, Ho. reflexivity.
Qed.

Lemma fullReset_restores_the_new_engine_witness :
  engineAfter
    (fullReset
       (engineAfter
          (resetAttempt
             (engineAfter (recordAnswer "e1" true (sampleEngine None) sampleClock))
             sampleClock))
       sampleClock)
  = set_startTime 0 (sampleEngine None).
Proof.
  apply (fullReset_restores_the_new_engine [] samplePool None sampleClock sampleClock).
  apply reachableFrom_resetAttempt, reachableFrom_recordAnswer, reachableFrom_here.
Defined.

(** X19. What the resets do to the exposure memory and to the next
    question.  After [resetAttempt] the ids seen globally are the same and
    none is seen in the current attempt; after [fullReset] none is seen at
    all.  After either, the engine is not complete and the next question is
    the first guiding question when there is one. *)
Theorem resets_and_exposure_memory :
  forall (this : PowerPath100) (c : Clock) (g : Rand),
    let again := engineAfter (resetAttempt this c) in
    let fresh := engineAfter (fullReset this c) in
    getGloballySeenQuestionIds again = getGloballySeenQuestionIds this
    /\ getCurrentAttemptSeenIds again = ∅
    /\ getGloballySeenQuestionIds fresh = ∅
    /\ getCurrentAttemptSeenIds fresh = ∅
    /\ isComplete again = false
    /\ isComplete fresh = false
    /\ (guidingQuestions this <> [] ->
        fst (fst (getNextQuestion again g)) = head (guidingQuestions this)
        /\ fst (fst (getNextQuestion fresh g)) = head (guidingQuestions this)
        /\ is_Some (head (guidingQuestions this))).
Proof.
  intros this c g again fresh. subst again fresh.
  rewrite resetAttempt_engine, fullReset_engine.
  repeat split.
  - unfold getNextQuestion. cbn.
    destruct (guidingQuestions this); [congruence|reflexivity].
  - unfold getNextQuestion. cbn.
    destruct (guidingQuestions this); [congruence|reflexivity].
  - destruct (guidingQuestions this); [congruence|eauto].
Qed.

Lemma resets_and_exposure_memory_witness :
  fst (fst (getNextQuestion
              (engineAfter
                 (resetAttempt
                    (engineAfter (recordAnswer "g1" true sampleGuidedEngine sampleClock))
                    sampleClock))
              sampleRand))
  = Some (sampleQuestion "g1" medium None).
Proof.
  pose proof (resets_and_exposure_memory
                (engineAfter (recordAnswer "g1" true sampleGuidedEngine sampleClock))
                sampleClock sampleRand) as H.
  cbv zeta in H.
  destruct H as (_ & _ & _ & _ & _ & _ & H).
  destruct H as (Hagain & _ & _); [discriminate|].
  rewrite Hagain. reflexivity.
Defined.

(** ** Snapshots *)






(** ** The elapsed time *)

Lemma string_length_append (s1 s2 : string) :
  String.length (s1 ++ s2) = (String.length s1 + String.length s2)%nat.
Proof. induction s1 as [|a s1 IH]; simpl; [reflexivity|]. f_equal. exact IH. Qed.

Lemma padStart2_two_digits (n : Z) :
  0 <= n < 100 -> String.length (padStart2 (pretty n)) = 2%nat.
Proof.
  intros Hn. rewrite <- (Z2Nat.id n) by lia.
  assert (Hk : (Z.to_nat n < 100)%nat) by lia.
  generalize dependent (Z.to_nat n). clear. intros k Hk.
  do 100 (destruct k as [|k]; [vm_compute; reflexivity|]). lia.
Qed.

(** X21. [formatTime] on an elapsed time that is not negative: the three
    fields it prints are the hours, the minutes below 60 and the seconds
    below 60 of the whole seconds elapsed; below 100 hours the string has
    exactly 8 characters. *)
Theorem formatTime_fields :
  forall ms : Z,
    0 <= ms ->
    exists hours minutes secs,
      formatTime ms
      = (padStart2 (pretty hours) ++ ":" ++ padStart2 (pretty minutes) ++ ":"
           ++ padStart2 (pretty secs))%string
      /\ 0 <= hours /\ 0 <= minutes < 60 /\ 0 <= secs < 60
      /\ ms / 1000 = 3600 * hours + 60 * minutes + secs
      /\ (ms < 360000000 -> String.length (formatTime ms) = 8%nat).
Proof.
  intros ms Hms.
  set (seconds := ms / 1000).
  assert (Hsec : 0 <= seconds) by (subst seconds; Z.div_mod_to_equations; lia).
  exists (seconds / 3600), (Z.rem seconds 3600 / 60), (Z.rem seconds 60).
  assert (Hm : 0 <= Z.rem seconds 3600 / 60 < 60).
  { rewrite Z.rem_mod_nonneg by lia. Z.div_mod_to_equations. lia. }
  assert (Hs : 0 <= Z.rem seconds 60 < 60).
  { rewrite Z.rem_mod_nonneg by lia. Z.div_mod_to_equations. lia. }
  split; [reflexivity|].
  split; [Z.div_mod_to_equations; lia|].
  split; [exact Hm|]. split; [exact Hs|]. split.
  - rewrite !Z.rem_mod_nonneg by lia. Z.div_mod_to_equations. lia.
  - intros Hlt. unfold formatTime. fold seconds.
    assert (Hh : 0 <= seconds / 3600 < 100)
      by (subst seconds; Z.div_mod_to_equations; lia).
    rewrite !string_length_append.
    rewrite (padStart2_two_digits _ Hh),
      (padStart2_two_digits (Z.rem seconds 3600 / 60)),
      (padStart2_two_digits (Z.rem seconds 60)) by lia.
    reflexivity.
Qed.

Lemma formatTime_fields_witness :
  String.length (formatTime 3725000) = 8%nat /\ formatTime 3725000 = "01:02:05".
Proof.
  destruct (formatTime_fields 3725000) as (h & m & s & _ & _ & _ & _ & _ & Hlen).
  - lia.
  - split; [apply Hlen; lia|reflexivity].
Defined.

(** ** Expected questions *)

Lemma accuracies_sorted :
  merge_sort Z.ge accuracyKeys = [100; 99; 95; 90; 80; 70; 60; 50].
Proof. vm_compute. reflexivity. Qed.

Lemma Qle_bool_cases (a x : Q) :
  (Qle_bool a x = true /\ (a <= x)%Q) \/ (Qle_bool a x = false /\ (x < a)%Q).
Proof.
  destruct (Qle_bool a x) eqn:H.
  - left. split; [reflexivity|]. apply Qle_bool_iff, H.
  - right. split; [reflexivity|]. apply Qnot_le_lt.
    intros Hle. apply Qle_bool_iff in Hle. congruence.
Qed.

(** [getExpectedQuestions] by the band of its argument. *)
Lemma getExpectedQuestions_bands x :
  ((100 <= x)%Q /\ getExpectedQuestions x = Some (11 # 1)%Q)
  \/ ((99 <= x < 100)%Q /\ getExpectedQuestions x = Some (112 # 10)%Q)
  \/ ((95 <= x < 99)%Q /\ getExpectedQuestions x = Some (122 # 10)%Q)
  \/ ((90 <= x < 95)%Q /\ getExpectedQuestions x = Some (135 # 10)%Q)
  \/ ((80 <= x < 90)%Q /\ getExpectedQuestions x = Some (171 # 10)%Q)
  \/ ((70 <= x < 80)%Q /\ getExpectedQuestions x = Some (239 # 10)%Q)
  \/ ((60 <= x < 70)%Q /\ getExpectedQuestions x = Some (353 # 10)%Q)
  \/ ((50 <= x < 60)%Q /\ getExpectedQuestions x = Some (712 # 10)%Q)
  \/ ((x < 50)%Q /\ getExpectedQuestions x = Some (100 # 1)%Q).
Proof.
  unfold getExpectedQuestions. rewrite accuracies_sorted.
  cbn [firstReached].
  repeat match goal with
         | |- context [Qle_bool (inject_Z ?k) x] =>
             destruct (Qle_bool_cases (inject_Z k) x) as [[-> ?]|[-> ?]]
         end;
    repeat match goal with
           | H : context [inject_Z ?k] |- _ =>
               change (inject_Z k) with (k # 1)%Q in H
           end.
  all: repeat (first [left; split; [lra | vm_compute; reflexivity] | right]).
  all: split; [lra|vm_compute; reflexivity].
Qed.

(** X22. [getExpectedQuestions] always finds a count, between 11 and 100,
    and a higher accuracy never gets a higher count.  Below 50 percent the
    count is 100, from 100 percent on it is 11. *)
Theorem expected_questions_fall_with_accuracy :
  forall a b : Q,
    (a <= b)%Q ->
    (exists na nb,
        getExpectedQuestions a = Some na /\ getExpectedQuestions b = Some nb
        /\ (nb <= na)%Q /\ (11 <= nb)%Q /\ (na <= 100)%Q)
    /\ ((a < 50)%Q -> getExpectedQuestions a = Some (100 # 1)%Q)
    /\ ((100 <= a)%Q -> getExpectedQuestions a = Some (11 # 1)%Q).
Proof.
  intros a b Hab. split; [|split].
  - destruct (getExpectedQuestions_bands a)
      as [[? ->]|[[? ->]|[[? ->]|[[? ->]|[[? ->]|[[? ->]|[[? ->]|[[? ->]|[? ->]]]]]]]]];
      destruct (getExpectedQuestions_bands b)
        as [[? ->]|[[? ->]|[[? ->]|[[? ->]|[[? ->]|[[? ->]|[[? ->]|[[? ->]|[? ->]]]]]]]]];
      try (exfalso; lra);
      (eexists; eexists; split; [reflexivity|]; split; [reflexivity|]; lra).
  - intros Ha.
    destruct (getExpectedQuestions_bands a)
      as [[? ?]|[[? ?]|[[? ?]|[[? ?]|[[? ?]|[[? ?]|[[? ?]|[[? ?]|[? ?]]]]]]]]];
      try (exfalso; lra); assumption.
  - intros Ha.
    destruct (getExpectedQuestions_bands a)
      as [[? ?]|[[? ?]|[[? ?]|[[? ?]|[[? ?]|[[? ?]|[[? ?]|[[? ?]|[? ?]]]]]]]]];
      try (exfalso; lra); assumption.
Qed.

Lemma expected_questions_fall_with_accuracy_witness :
  getExpectedQuestions (49 # 1) = Some (100 # 1)%Q
  /\ getExpectedQuestions (100 # 1) = Some (11 # 1)%Q.
Proof.
  destruct (expected_questions_fall_with_accuracy (49 # 1) (100 # 1))
    as (_ & Hlow & _); [discriminate|].
  destruct (expected_questions_fall_with_accuracy (100 # 1) (100 # 1))
    as (_ & _ & Hhigh); [discriminate|].
  split; [apply Hlow; reflexivity|apply Hhigh; discriminate].
Defined.

(** ** The global history and the observer *)

(** X23. The global history only grows until a [fullReset].  Along any
    [recordAnswer] and [resetAttempt] calls the global history keeps its
    earlier entries in place in front, the attempt number does not fall,
    and an id once seen globally stays seen. *)
Theorem global_history_only_grows :
  forall init this : PowerPath100,
    continues init this ->
    allQuestionHistory init `prefix_of` allQuestionHistory this
    /\ (currentAttempt init <= currentAttempt this)%nat
    /\ getGloballySeenQuestionIds init ⊆ getGloballySeenQuestionIds this.
Proof.
  intros init this Hc.
  assert (Hmain : allQuestionHistory init `prefix_of` allQuestionHistory this
                  /\ (currentAttempt init <= currentAttempt this)%nat).
  { induction Hc as [|this questionId wasCorrect c _ [IHh IHa]|this c _ [IHh IHa]].
    - split; [reflexivity|lia].
    - pose proof (recordAnswer_history questionId wasCorrect this c) as (Hall & _).
      pose proof (recordAnswer_counters questionId wasCorrect this c)
        as (_ & _ & _ & Hatt & _).
      cbv zeta in Hall, Hatt. rewrite Hall, Hatt.
      split; [apply prefix_app_r, IHh|exact IHa].
    - rewrite resetAttempt_engine. cbn. split; [exact IHh|lia]. }
  destruct Hmain as [[later Hprefix] Hattempt].
  split; [exists later; exact Hprefix|]. split; [exact Hattempt|].
  unfold getGloballySeenQuestionIds. rewrite Hprefix, fmap_app, list_to_set_app_L.
  apply union_subseteq_l.
Qed.

Lemma global_history_only_grows_witness :
  getGloballySeenQuestionIds (afterCorrectAnswers 1 None)
  ⊆ getGloballySeenQuestionIds
      (engineAfter
         (recordAnswer "e2" false
            (engineAfter (resetAttempt (afterCorrectAnswers 1 None) sampleClock))
            sampleClock)).
Proof.
  apply (global_history_only_grows (afterCorrectAnswers 1 None)).
  apply continues_recordAnswer, continues_resetAttempt, continues_here.
Defined.

(** X24. The observer of [recordAnswer] is handed the engine as the answer
    left it: the snapshot carries the score after the answer, the count
    including this answer and the completeness of the new score, and its
    elapsed time is taken from the clock reading that follows the one of
    the history entry.  With an observer the call reads the clock twice,
    without one once. *)
Theorem observer_sees_the_answered_engine :
  forall (this : PowerPath100) (questionId : string) (wasCorrect : bool)
         (c : Clock) (observer : Observer),
    onStatsUpdate this = Some observer ->
    let r := recordAnswer questionId wasCorrect this c in
    let handed :=
      PowerPathStats.mk
        (score (engineAfter r))
        (S (questionsAnswered this))
        (PowerPathState.accuracy
           (fst (getState (engineAfter r) (snd (Date_now c)))))
        (formatTime (c 1%nat - startTime this))
        (100 <=? score (engineAfter r)) in
    completionOf r
    = match observer handed with
      | Returned _ => Returned (formulaDelta wasCorrect this)
      | Threw e => Threw e
      end
    /\ (forall n, clockAfter r n = c (S (S n)))
    /\ (forall n,
           clockAfter (recordAnswer questionId wasCorrect
                         (set_onStatsUpdate None this) c) n
           = c (S n)).
Proof.
  intros this questionId wasCorrect c observer Hobs r handed. subst r handed.
  destruct this as [s qa ca att st allh curh gq qq idx obs].
  cbn in Hobs. subst obs.
  unfold completionOf, engineAfter, clockAfter, recordAnswer, notifyStatsUpdate,
    formulaDelta, getStats, getState, Date_now; cbn.
  destruct wasCorrect, (_ && _)%bool; cbn;
    match goal with
    | |- context [observer ?x] => destruct (observer x) eqn:Hcall
    end; cbn;
    (split; [|split; reflexivity]);
    match type of Hcall with
    | observer ?x = _ =>
        match goal with
        | |- context [observer ?y] => change y with x
        end
    end;
    rewrite Hcall; reflexivity.
Qed.

Lemma observer_sees_the_answered_engine_witness :
  completionOf
    (recordAnswer "e1" true
       (sampleEngine
          (Some (fun stats =>
                   if 14 <=? PowerPathStats.score stats
                   then Threw "score shown" else Returned tt)))
       sampleClock)
  = Threw "score shown".
Proof.
  destruct (observer_sees_the_answered_engine
              (sampleEngine
                 (Some (fun stats =>
                          if 14 <=? PowerPathStats.score stats
                          then Threw "score shown" else Returned tt)))
              "e1" true sampleClock
              (fun stats =>
                 if 14 <=? PowerPathStats.score stats
                 then Threw "score shown" else Returned tt) eq_refl)
    as (Hcall & _).
  rewrite Hcall. reflexivity.
Defined.

(** X25. The resets change the engine before they call the observer.
    The engine [resetAttempt] and [fullReset] leave does not depend on the
    observer, which is handed the snapshot of the reset engine (score 0, no
    answers, accuracy 0, not complete); what it returns or throws is what
    the reset returns or throws, and without an observer the reset
    returns. *)
Theorem resets_notify_last :
  forall (this : PowerPath100) (c : Clock),
    let handed := PowerPathStats.mk 0 0 0 (formatTime (c 1%nat - c 0%nat)) false in
    (forall observer,
        onStatsUpdate this = Some observer ->
        completionOf (resetAttempt this c) = observer handed
        /\ completionOf (fullReset this c) = observer handed)
    /\ (onStatsUpdate this = None ->
        completionOf (resetAttempt this c) = Returned tt
        /\ completionOf (fullReset this c) = Returned tt)
    /\ engineAfter (resetAttempt this c)
       = set_onStatsUpdate (onStatsUpdate this)
           (engineAfter (resetAttempt (set_onStatsUpdate None this) c))
    /\ engineAfter (fullReset this c)
       = set_onStatsUpdate (onStatsUpdate this)
           (engineAfter (fullReset (set_onStatsUpdate None this) c)).
Proof.
  intros this c handed. subst handed.
  destruct this as [s qa ca att st allh curh gq qq idx obs].
  split; [|split; [|split]].
  - intros observer Hobs. cbn in Hobs. subst obs. split; reflexivity.
  - intros Hobs. cbn in Hobs. subst obs. split; reflexivity.
  - destruct obs; reflexivity.
  - destruct obs; reflexivity.
Qed.

Lemma resets_notify_last_witness :
  completionOf (resetAttempt (afterCorrectAnswers 1 (Some failingObserver)) sampleClock)
  = Threw "observer failed"
  /\ score (engineAfter
              (resetAttempt (afterCorrectAnswers 1 (Some failingObserver)) sampleClock))
     = 0
  /\ completionOf (fullReset (afterCorrectAnswers 1 None) sampleClock) = Returned tt.
Proof.
  pose proof (resets_notify_last (afterCorrectAnswers 1 (Some failingObserver))
                sampleClock) as Hfail.
  pose proof (resets_notify_last (afterCorrectAnswers 1 None) sampleClock) as Hnone.
  cbv zeta in Hfail, Hnone.
  destruct Hfail as (Hcall & _ & Hstate & _).
  destruct Hnone as (_ & Hquiet & _).
  destruct (Hcall failingObserver eq_refl) as [Hreset _].
  destruct (Hquiet eq_refl) as [_ Hfull].
  split; [rewrite Hreset; reflexivity|].
  split; [rewrite Hstate; reflexivity|exact Hfull].
Defined.
